(** * QA generator with human review: chunking, answer location, review merge and quality filter

    A shallow embedding of the pure logic of
      - [generate_qa.py]                  (chunker, answer locator, reference building),
      - [process_labelstudio_results.py]  (review merge, quality filter, clean pairs),
      - [export_to_labelstudio.py]        (conversion of the pairs into review tasks),
    followed by the properties of that logic.

    Conventions.
      - A Python [str] is a list of characters.  A character is a code point
        below 256 (Rocq's [ascii]); [lower] and [isspace] follow Python's
        tables on that range, where [str.lower] is character-wise.
      - A Python [int] is a [Z]; slices follow Python's rules for negative and
        out-of-range bounds.
      - A call either returns, raises, or (for the one [while] loop) runs out
        of the fuel it was given: see [outcome]. *)

From Stdlib Require Import ZArith String Ascii List Permutation Bool Lia.
Import ListNotations.
Local Open Scope Z_scope.

(* ================================================================== *)
(** ** Python primitives *)
(* ================================================================== *)

Module Py.

Definition str := list ascii.

(** A string literal of the source. *)
Definition lit (s : string) : str := list_ascii_of_string s.

Definition len {A : Type} (l : list A) : Z := Z.of_nat (length l).

(** The subclasses of [Exception] that the modelled code can meet. *)
Inductive exn : Type :=
| IndexError
| KeyError
| TypeError
| AttributeError
| ValueError
| JSONDecodeError
| APIError.

Inductive outcome (A : Type) : Type :=
| Returned (a : A)
| Raised (e : exn)
| OutOfFuel.
Arguments Returned {A} a.
Arguments Raised {A} e.
Arguments OutOfFuel {A}.

Definition bind {A B : Type} (m : outcome A) (k : A -> outcome B) : outcome B :=
  match m with
  | Returned a => k a
  | Raised e => Raised e
  | OutOfFuel => OutOfFuel
  end.

(** [try: m except Exception: h]. *)
Definition try_except {A : Type} (m : outcome A) (h : exn -> outcome A) : outcome A :=
  match m with
  | Raised e => h e
  | other => other
  end.

Fixpoint mapM {A B : Type} (f : A -> outcome B) (l : list A) : outcome (list B) :=
  match l with
  | [] => Returned []
  | a :: l' => bind (f a) (fun b => bind (mapM f l') (fun bs => Returned (b :: bs)))
  end.

(** How a slice bound [i] is read against a sequence of length [n]. *)
Definition clamp (n i : Z) : Z :=
  if i <? 0 then Z.max 0 (i + n) else Z.min i n.

(** [s[a:b]]. *)
Definition slice {A : Type} (s : list A) (a b : Z) : list A :=
  let lo := clamp (len s) a in
  let hi := clamp (len s) b in
  firstn (Z.to_nat (hi - lo)) (skipn (Z.to_nat lo) s).

(** [s[i]]: negative indices count from the end; out of range raises. *)
Definition index {A : Type} (s : list A) (i : Z) : outcome A :=
  let j := if i <? 0 then i + len s else i in
  if (j <? 0) || (len s <=? j) then Raised IndexError
  else match nth_error s (Z.to_nat j) with
       | Some a => Returned a
       | None => Raised IndexError
       end.

Definition newline : ascii := ascii_of_nat 10.
Definition space : ascii := ascii_of_nat 32.

(** [s.count(c)] for a one-character [c]. *)
Definition count (c : ascii) (s : str) : Z :=
  Z.of_nat (count_occ ascii_dec s c).

(** [s.replace(a, b)] for one-character [a] and [b]. *)
Definition replace (a b : ascii) (s : str) : str :=
  map (fun c => if Ascii.eqb c a then b else c) s.

(** [str.lower] on one character: A-Z, and the upper-case letters of
    Latin-1 (0xC0-0xDE but the multiplication sign 0xD7). *)
Definition lower_char (c : ascii) : ascii :=
  let n := nat_of_ascii c in
  if ((65 <=? n) && (n <=? 90))%nat then ascii_of_nat (n + 32)
  else if ((192 <=? n) && (n <=? 222) && negb (n =? 215))%nat then ascii_of_nat (n + 32)
  else c.

Definition lower (s : str) : str := map lower_char s.

(** [str.isspace] on one character: tab to carriage return, the four
    separators 0x1C-0x1F, space, NEL and the no-break space. *)
Definition isspace (c : ascii) : bool :=
  let n := nat_of_ascii c in
  (((9 <=? n) && (n <=? 13)) || ((28 <=? n) && (n <=? 32)) || (n =? 133) || (n =? 160))%nat.

Definition is_nil {A : Type} (l : list A) : bool :=
  match l with [] => true | _ => false end.

(** [s.split()]: the maximal runs of characters that are not whitespace.
    [cur] holds the current run, reversed. *)
Fixpoint split_ws_from (cur : str) (s : str) : list str :=
  match s with
  | [] => if is_nil cur then [] else [rev cur]
  | c :: s' =>
      if isspace c
      then (if is_nil cur then split_ws_from [] s' else rev cur :: split_ws_from [] s')
      else split_ws_from (c :: cur) s'
  end.

Definition split_ws (s : str) : list str := split_ws_from [] s.

(** [sep.join(l)]. *)
Fixpoint join (sep : str) (l : list str) : str :=
  match l with
  | [] => []
  | [w] => w
  | w :: l' => w ++ sep ++ join sep l'
  end.

Fixpoint str_eqb (a b : str) : bool :=
  match a, b with
  | [], [] => true
  | x :: a', y :: b' => Ascii.eqb x y && str_eqb a' b'
  | _, _ => false
  end.

(** [s.startswith(p)]. *)
Fixpoint startswith (p s : str) : bool :=
  match p, s with
  | [], _ => true
  | x :: p', y :: s' => Ascii.eqb x y && startswith p' s'
  | _ :: _, [] => false
  end.

(** [s.find(sub)], searching [s] whose first character sits at offset [i]. *)
Fixpoint find_from (i : Z) (sub s : str) : Z :=
  if startswith sub s then i
  else match s with
       | [] => -1
       | _ :: s' => find_from (i + 1) sub s'
       end.

Definition find (s sub : str) : Z := find_from 0 sub s.

(** [sub in s]. *)
Definition contains (s sub : str) : bool := 0 <=? find s sub.

(** [s.split(sep)] for a non-empty [sep]: [skip] counts the characters of a
    separator still to be passed over, [cur] is the current piece, reversed. *)
Fixpoint split_on_from (sep : str) (skip : nat) (cur : str) (s : str) : list str :=
  match s with
  | [] => [rev cur]
  | c :: s' =>
      match skip with
      | S k => split_on_from sep k cur s'
      | O =>
          if startswith sep s
          then rev cur :: split_on_from sep (Nat.pred (length sep)) [] s'
          else split_on_from sep O (c :: cur) s'
      end
  end.

Definition split_on (s sep : str) : list str := split_on_from sep O [] s.

Fixpoint lstrip (s : str) : str :=
  match s with
  | c :: s' => if isspace c then lstrip s' else s
  | [] => []
  end.

(** [s.strip()]. *)
Definition strip (s : str) : str := rev (lstrip (rev (lstrip s))).

End Py.

(* ================================================================== *)
(** ** JSON values, as [json.load] and [json.loads] build them *)
(* ================================================================== *)

Module Json.

Import Py.

(** A [dict] keeps its keys in insertion order: an association list whose
    keys are distinct. *)
#[warnings="-register-all"] Inductive t : Type :=
| JNull
| JBool (b : bool)
| JInt (z : Z)
| JStr (s : str)
| JList (l : list t)
| JObj (kv : list (str * t)).

Definition dict := list (str * t).

Fixpoint lookup (d : dict) (k : str) : option t :=
  match d with
  | [] => None
  | (k', v) :: d' => if str_eqb k' k then Some v else lookup d' k
  end.

(** [d[k] = v]: an existing key keeps its place. *)
Fixpoint set (d : dict) (k : str) (v : t) : dict :=
  match d with
  | [] => [(k, v)]
  | (k', v') :: d' => if str_eqb k' k then (k', v) :: d' else (k', v') :: set d' k v
  end.

(** [k in d]. *)
Definition has_key (d : dict) (k : str) : bool :=
  match lookup d k with Some _ => true | None => false end.

(** [d[k]]. *)
Definition getitem (d : dict) (k : str) : outcome t :=
  match lookup d k with
  | Some v => Returned v
  | None => Raised KeyError
  end.

(** [d.get(k, default)] on a [dict]. *)
Definition get (d : dict) (k : str) (default : t) : t :=
  match lookup d k with
  | Some v => v
  | None => default
  end.

(** [x.get(k, default)] on any value: only a [dict] has the method. *)
Definition get_attr (x : t) (k : str) (default : t) : outcome t :=
  match x with
  | JObj d => Returned (get d k default)
  | _ => Raised AttributeError
  end.

(** [x == s] for a string literal [s]. *)
Definition eq_str (x : t) (s : str) : bool :=
  match x with
  | JStr s' => str_eqb s' s
  | _ => false
  end.

(** [for e in x]: the elements of a list, the keys of a dict, the
    characters of a string. *)
Definition iter (x : t) : outcome (list t) :=
  match x with
  | JList l => Returned l
  | JObj d => Returned (map (fun p => JStr (fst p)) d)
  | JStr s => Returned (map (fun c => JStr [c]) s)
  | _ => Raised TypeError
  end.

Definition of_option (o : option str) : t :=
  match o with
  | Some s => JStr s
  | None => JNull
  end.

End Json.

(* ================================================================== *)
(** ** generate_qa.py *)
(* ================================================================== *)

Module Chunk.

(** The dictionary [chunk_data]; [source_document] is [None] when the key
    was not set. *)
Record t : Type := mk {
  id : Z;
  text : Py.str;
  char_start : Z;
  char_end : Z;
  line_start : Z;
  line_end : Z;
  preview : Py.str;
  source_document : option Py.str
}.

End Chunk.

Module GenerateQa.

Import Py Json.

(** One pass of the body of the [while] loop: the chunk built at cursor
    [start], and the next cursor. *)
Definition chunk_at (text : str) (chunk_size overlap : Z) (source_document : option str)
    (start chunk_id : Z) : Chunk.t * Z :=
  let end_ := Z.min (start + chunk_size) (len text) in
  let chunk_text := slice text start end_ in
  let lines_before := count newline (slice text 0 start) in
  let lines_in_chunk := count newline chunk_text in
  let chunk_data :=
    {| Chunk.id := chunk_id;
       Chunk.text := chunk_text;
       Chunk.char_start := start;
       Chunk.char_end := end_;
       Chunk.line_start := lines_before + 1;
       Chunk.line_end := lines_before + lines_in_chunk + 1;
       Chunk.preview := replace newline space (slice chunk_text 0 100) ++ lit "...";
       Chunk.source_document :=
         match source_document with
         | Some (c :: s) => Some (c :: s)
         | _ => None
         end |} in
  (chunk_data, if end_ <? len text then end_ - overlap else end_).

(** The [while start < len(text)] loop, one unit of fuel per test of the
    condition; [chunks] is the list appended to. *)
Fixpoint chunk_loop (fuel : nat) (text : str) (chunk_size overlap : Z)
    (source_document : option str) (start chunk_id : Z) (chunks : list Chunk.t)
    : outcome (list Chunk.t) :=
  match fuel with
  | O => OutOfFuel
  | S fuel' =>
      if start <? len text
      then
        let (chunk_data, next) :=
          chunk_at text chunk_size overlap source_document start chunk_id in
        chunk_loop fuel' text chunk_size overlap source_document
                   next (chunk_id + 1) (chunks ++ [chunk_data])
      else Returned chunks
  end.

(** [chunk_text_with_positions(text, chunk_size, overlap, source_document)],
    with [chunk_size] already read from the configuration when not given. *)
Definition chunk_text_with_positions (fuel : nat) (text : str) (chunk_size overlap : Z)
    (source_document : option str) : outcome (list Chunk.t) :=
  chunk_loop fuel text chunk_size overlap source_document 0 0 [].

(** [find_answer_location(answer, chunk_text)]; [None] is Python's [None]. *)
Definition find_answer_location (answer chunk_text : str) : option Z :=
  let answer_words := slice (split_ws (lower answer)) 0 5 in
  let search_text := join [space] answer_words in
  let chunk_lower := lower chunk_text in
  let pos := find chunk_lower search_text in
  if negb (pos =? -1)
  then
    let lines_before := count newline (slice chunk_text 0 pos) in
    Some lines_before
  else None.

(** The dictionary assigned to [qa['reference']]. *)
Definition reference_of (chunk_data : Chunk.t) : dict :=
  [ (lit "chunk_id", JInt (Chunk.id chunk_data));
    (lit "char_start", JInt (Chunk.char_start chunk_data));
    (lit "char_end", JInt (Chunk.char_end chunk_data));
    (lit "line_start", JInt (Chunk.line_start chunk_data));
    (lit "line_end", JInt (Chunk.line_end chunk_data));
    (lit "chunk_preview", JStr (Chunk.preview chunk_data));
    (lit "source_document",
      JStr (match Chunk.source_document chunk_data with Some s => s | None => [] end)) ].

(** The body of [for qa in qa_pairs]: the reference, and the answer location
    when it is found. *)
Definition add_reference (chunk_data : Chunk.t) (qa : t) : outcome t :=
  match qa with
  | JObj d =>
      let reference := reference_of chunk_data in
      let d1 := set d (lit "reference") (JObj reference) in
      bind (getitem d1 (lit "answer")) (fun answer =>
        match answer with
        | JStr a =>
            match find_answer_location a (Chunk.text chunk_data) with
            | Some answer_line =>
                let reference1 := set reference (lit "answer_line_in_chunk") (JInt answer_line) in
                let reference2 :=
                  set reference1 (lit "answer_line_in_doc")
                      (JInt (Chunk.line_start chunk_data + answer_line)) in
                Returned (JObj (set d1 (lit "reference") (JObj reference2)))
            | None => Returned (JObj d1)
            end
        | _ => Raised AttributeError
        end)
  | _ => Raised TypeError
  end.

(** The whole [for] loop over the parsed response, which is returned with
    its elements updated in place. *)
Definition add_references (chunk_data : Chunk.t) (qa_pairs : t) : outcome t :=
  bind (iter qa_pairs) (fun items =>
  bind (mapM (add_reference chunk_data) items) (fun items' =>
  Returned (match qa_pairs with
            | JList _ => JList items'
            | other => other
            end))).

(** The two [split] chains that take the JSON out of a fenced block. *)
Definition strip_fence (content : str) : outcome str :=
  let fence_json := lit "```json" in
  let fence := lit "```" in
  if contains content fence_json
  then bind (index (split_on content fence_json) 1) (fun a =>
       bind (index (split_on a fence) 0) (fun b => Returned (strip b)))
  else if contains content fence
  then bind (index (split_on content fence) 1) (fun a =>
       bind (index (split_on a fence) 0) (fun b => Returned (strip b)))
  else Returned content.

Section Generation.

(** The generation collaborator: the request made for a number of pairs
    and a chunk text returns the content of the first choice, or raises. *)
Variable create : Z -> str -> outcome str.

(** [json.loads]. *)
Variable json_loads : str -> outcome t.

(** The body of the [try] block. *)
Definition generate_body (chunk_data : Chunk.t) (num_pairs : Z) : outcome t :=
  let chunk_text := Chunk.text chunk_data in
  bind (create num_pairs chunk_text) (fun content =>
  bind (strip_fence content) (fun content' =>
  bind (json_loads content') (fun qa_pairs =>
  add_references chunk_data qa_pairs))).

(** [generate_qa_pairs_with_refs(chunk_data, num_pairs)]. *)
Definition generate_qa_pairs_with_refs (chunk_data : Chunk.t) (num_pairs : Z) : outcome t :=
  try_except (generate_body chunk_data num_pairs) (fun _ => Returned (JList [])).

(** The loop of [main] over the chunks: [all_qa_pairs.extend(qa_pairs)]. *)
Fixpoint collect (num_pairs : Z) (chunks : list Chunk.t) (all_qa_pairs : list t)
    : outcome (list t) :=
  match chunks with
  | [] => Returned all_qa_pairs
  | chunk :: chunks' =>
      bind (generate_qa_pairs_with_refs chunk num_pairs) (fun qa_pairs =>
      bind (iter qa_pairs) (fun items =>
      collect num_pairs chunks' (all_qa_pairs ++ items)))
  end.

End Generation.

End GenerateQa.

(* ================================================================== *)
(** ** process_labelstudio_results.py *)
(* ================================================================== *)

Module ProcessResults.

Import Py Json.

(** The review export, in the shape the annotation tool writes it.  An
    optional field is [None] when its key is absent. *)

(** One element [r] of [result]: [r['from_name']], [r['value']['choices']]
    and [r['value']['text']]. *)
Record Entry : Type := mkEntry {
  from_name : str;
  choices : option (list str);
  text : option (list str)
}.

Record Annotation : Type := mkAnnotation {
  result : option (list Entry);
  completed_by : option t;
  created_at : option t
}.

Record Item : Type := mkItem {
  id : option Z;
  annotations : option (list Annotation)
}.

(** The dictionary [review_data]: a label is [None] until an entry sets it. *)
Record ReviewData : Type := mkReview {
  accuracy : option str;
  relevance : option str;
  quality : option str;
  issues : list str;
  notes : option str
}.

Definition empty_review : ReviewData :=
  {| accuracy := None; relevance := None; quality := None; issues := []; notes := None |}.

Definition review_to_json (r : ReviewData) : t :=
  JObj [ (lit "accuracy", of_option (accuracy r));
         (lit "relevance", of_option (relevance r));
         (lit "quality", of_option (quality r));
         (lit "issues", JList (map JStr (issues r)));
         (lit "notes", of_option (notes r)) ].

(** [collections.Counter] over labels, [None] included. *)
Definition Counter := list (option str * Z).

Definition key_eqb (a b : option str) : bool :=
  match a, b with
  | None, None => true
  | Some x, Some y => str_eqb x y
  | _, _ => false
  end.

(** [counter[k] += 1]. *)
Fixpoint incr (c : Counter) (k : option str) : Counter :=
  match c with
  | [] => [(k, 1)]
  | (k', n) :: c' => if key_eqb k' k then (k', n + 1) :: c' else (k', n) :: incr c' k
  end.

Record Stats : Type := mkStats {
  total : Z;
  completed : Z;
  st_accuracy : Counter;
  st_relevance : Counter;
  st_quality : Counter;
  st_issues : Counter
}.

(** [r['value'][key]]. *)
Definition value_item (field : option (list str)) : outcome (list str) :=
  match field with
  | Some l => Returned l
  | None => Raised KeyError
  end.

(** The [if]/[elif] chain on [r['from_name']]. *)
Definition extract_entry (review_data : ReviewData) (r : Entry) : outcome ReviewData :=
  if str_eqb (from_name r) (lit "accuracy") then
    bind (value_item (choices r)) (fun cs => bind (index cs 0) (fun c =>
      Returned {| accuracy := Some c; relevance := relevance review_data;
                  quality := quality review_data; issues := issues review_data;
                  notes := notes review_data |}))
  else if str_eqb (from_name r) (lit "relevance") then
    bind (value_item (choices r)) (fun cs => bind (index cs 0) (fun c =>
      Returned {| accuracy := accuracy review_data; relevance := Some c;
                  quality := quality review_data; issues := issues review_data;
                  notes := notes review_data |}))
  else if str_eqb (from_name r) (lit "quality") then
    bind (value_item (choices r)) (fun cs => bind (index cs 0) (fun c =>
      Returned {| accuracy := accuracy review_data; relevance := relevance review_data;
                  quality := Some c; issues := issues review_data;
                  notes := notes review_data |}))
  else if str_eqb (from_name r) (lit "issues") then
    bind (value_item (choices r)) (fun cs =>
      Returned {| accuracy := accuracy review_data; relevance := relevance review_data;
                  quality := quality review_data; issues := cs;
                  notes := notes review_data |})
  else if str_eqb (from_name r) (lit "notes") then
    bind (value_item (text r)) (fun ts =>
      bind (if is_nil ts then Returned None
            else bind (index ts 0) (fun n => Returned (Some n))) (fun n =>
      Returned {| accuracy := accuracy review_data; relevance := relevance review_data;
                  quality := quality review_data; issues := issues review_data;
                  notes := n |}))
  else Returned review_data.

(** [for r in result]. *)
Fixpoint extract (review_data : ReviewData) (result : list Entry) : outcome ReviewData :=
  match result with
  | [] => Returned review_data
  | r :: result' => bind (extract_entry review_data r) (fun rd => extract rd result')
  end.

(** The four statistics updates of one reviewed record. *)
Definition update_stats (stats : Stats) (review_data : ReviewData) : Stats :=
  {| total := total stats;
     completed := completed stats + 1;
     st_accuracy := incr (st_accuracy stats) (accuracy review_data);
     st_relevance := incr (st_relevance stats) (relevance review_data);
     st_quality := incr (st_quality stats) (quality review_data);
     st_issues := fold_left (fun c issue => incr c (Some issue)) (issues review_data)
                            (st_issues stats) |}.

(** [original_qa[qa_id].copy()] with the three review keys set. *)
Definition merge (original_qa : list t) (qa_id : Z) (review_data : ReviewData)
    (annotation : Annotation) : outcome t :=
  bind (index original_qa qa_id) (fun qa =>
    match qa with
    | JObj d =>
        let d1 := set d (lit "review") (review_to_json review_data) in
        let d2 := set d1 (lit "reviewer_id")
                      (match completed_by annotation with
                       | Some v => v
                       | None => JStr (lit "unknown")
                       end) in
        let d3 := set d2 (lit "review_date")
                      (match created_at annotation with
                       | Some v => v
                       | None => JStr []
                       end) in
        Returned (JObj d3)
    | JList _ => Raised TypeError
    | _ => Raised AttributeError
    end).

(** The body of [for item in reviewed_data], on the pair
    [(processed_qa, stats)]. *)
Definition process_item (original_qa : list t) (state : list t * Stats) (item : Item)
    : outcome (list t * Stats) :=
  let (processed_qa, stats) := state in
  let qa_id := (match id item with Some i => i | None => 0 end) - 1 in
  let annotations := match annotations item with Some l => l | None => [] end in
  if is_nil annotations then Returned (processed_qa, stats)
  else
    bind (index annotations (-1)) (fun annotation =>
    let result := match result annotation with Some l => l | None => [] end in
    bind (extract empty_review result) (fun review_data =>
    let stats' := update_stats stats review_data in
    if qa_id <? len original_qa
    then bind (merge original_qa qa_id review_data annotation) (fun qa_with_review =>
         Returned (processed_qa ++ [qa_with_review], stats'))
    else Returned (processed_qa, stats'))).

Fixpoint process_items (original_qa : list t) (state : list t * Stats) (items : list Item)
    : outcome (list t * Stats) :=
  match items with
  | [] => Returned state
  | item :: items' =>
      bind (process_item original_qa state item) (fun state' =>
      process_items original_qa state' items')
  end.

(** [process_labelstudio_export], on the two files' parsed contents. *)
Definition process_labelstudio_export (reviewed_data : list Item) (original_qa : list t)
    : outcome (list t * Stats) :=
  let stats := {| total := len reviewed_data; completed := 0; st_accuracy := [];
                  st_relevance := []; st_quality := []; st_issues := [] |} in
  process_items original_qa ([], stats) reviewed_data.

Definition quality_levels : list (str * Z) :=
  [ (lit "Excellent", 4); (lit "Good", 3); (lit "Fair", 2); (lit "Poor", 1) ].

Fixpoint levels_lookup (d : list (str * Z)) (k : str) : option Z :=
  match d with
  | [] => None
  | (k', v) :: d' => if str_eqb k' k then Some v else levels_lookup d' k
  end.

(** [quality_levels.get(key, default)]: a list or a dict cannot be hashed,
    and no other value than a string equals a key. *)
Definition levels_get (key : t) (default : Z) : outcome Z :=
  match key with
  | JStr s => Returned (match levels_lookup quality_levels s with
                        | Some v => v
                        | None => default
                        end)
  | JList _ | JObj _ => Raised TypeError
  | _ => Returned default
  end.

(** The test of the [if] in the loop of [filter_qa_by_quality]. *)
Definition accepts (min_level : Z) (qa : t) : outcome bool :=
  bind (get_attr qa (lit "review") (JObj [])) (fun review =>
  bind (get_attr review (lit "quality") (JStr (lit "Fair"))) (fun quality =>
  bind (get_attr review (lit "accuracy") (JStr (lit "Partially Accurate"))) (fun accuracy =>
  bind (levels_get quality 0) (fun level =>
  Returned ((min_level <=? level)
            && (eq_str accuracy (lit "Accurate")
                || eq_str accuracy (lit "Partially Accurate"))))))).

(** [for qa in processed_qa], on the pair [(filtered_qa, rejected_qa)]. *)
Fixpoint filter_loop (min_level : Z) (processed_qa : list t) (state : list t * list t)
    : outcome (list t * list t) :=
  match processed_qa with
  | [] => Returned state
  | qa :: rest =>
      bind (accepts min_level qa) (fun ok =>
      let (filtered_qa, rejected_qa) := state in
      filter_loop min_level rest
        (if ok then (filtered_qa ++ [qa], rejected_qa)
         else (filtered_qa, rejected_qa ++ [qa])))
  end.

(** [filter_qa_by_quality(processed_qa, min_quality)]. *)
Definition filter_qa_by_quality (processed_qa : list t) (min_quality : str)
    : outcome (list t * list t) :=
  let min_level := match levels_lookup quality_levels min_quality with
                   | Some v => v
                   | None => 3
                   end in
  filter_loop min_level processed_qa ([], []).

End ProcessResults.

(* ================================================================== *)
(** ** export_to_labelstudio.py *)
(* ================================================================== *)

Module ExportLabelStudio.

Import Py Json.

(** A value used as a bound of a slice: an integer, a boolean (0 or 1) or
    [None]; anything else is refused. *)
Definition slice_bound (x : t) : outcome (option Z) :=
  match x with
  | JInt z => Returned (Some z)
  | JBool b => Returned (Some (if b then 1 else 0))
  | JNull => Returned None
  | _ => Raised TypeError
  end.

(** [s[a:b]] where a bound may be [None]. *)
Definition slice_opt {A : Type} (s : list A) (a b : option Z) : list A :=
  slice s (match a with Some z => z | None => 0 end)
          (match b with Some z => z | None => len s end).

(** [qa[key]]: only a dictionary can be subscripted by a string. *)
Definition subscript (qa : t) (key : str) : outcome t :=
  match qa with
  | JObj d => getitem d key
  | _ => Raised TypeError
  end.

Section Convert.

(** How an f-string prints a value. *)
Variable format : t -> str.

(** [Path(original_doc_file).name] and [str(original_doc_file)]. *)
Variables doc_name document_path : str.

(** The body of [for i, qa in enumerate(qa_pairs)]: the task of pair [i]. *)
Definition task_of (full_text : str) (i : Z) (qa : t) : outcome t :=
  bind (get_attr qa (lit "reference") (JObj [])) (fun ref =>
  bind (get_attr ref (lit "char_start") (JInt 0)) (fun chunk_start =>
  bind (get_attr ref (lit "char_end") (JInt (len full_text))) (fun chunk_end =>
  bind (slice_bound chunk_start) (fun a =>
  bind (slice_bound chunk_end) (fun b =>
  let context_chunk := slice_opt full_text a b in
  bind (subscript qa (lit "question")) (fun question =>
  bind (subscript qa (lit "answer")) (fun answer =>
  bind (get_attr ref (lit "chunk_id") (JStr [])) (fun chunk_id =>
  bind (get_attr ref (lit "line_start") (JStr [])) (fun line_start =>
  bind (get_attr ref (lit "line_end") (JStr [])) (fun line_end =>
  bind (get_attr ref (lit "chunk_preview") (JStr [])) (fun chunk_preview =>
  Returned
    (JObj [ (lit "id", JInt (i + 1));
            (lit "data",
             JObj [ (lit "question", question);
                    (lit "answer", answer);
                    (lit "context", JStr context_chunk);
                    (lit "source_document", JStr doc_name);
                    (lit "document_path", JStr document_path);
                    (lit "chunk_id", chunk_id);
                    (lit "line_range", JStr (format line_start ++ lit "-" ++ format line_end));
                    (lit "char_range",
                     JStr (format chunk_start ++ lit "-" ++ format chunk_end));
                    (lit "qa_pair_id", JStr (lit "QA_" ++ format (JInt (i + 1))));
                    (lit "chunk_preview", chunk_preview) ]) ])))))))))))).

(** The loop over [enumerate(qa_pairs)] from index [i] on, appending to
    [tasks]. *)
Fixpoint convert_from (full_text : str) (i : Z) (qa_pairs : list t) (tasks : list t)
  : outcome (list t) :=
  match qa_pairs with
  | [] => Returned tasks
  | qa :: rest =>
      bind (task_of full_text i qa) (fun task =>
      convert_from full_text (i + 1) rest (tasks ++ [task]))
  end.

(** [convert_to_labelstudio_format], on the parsed pairs and the text of
    the document. *)
Definition convert_to_labelstudio_format (qa_pairs : list t) (full_text : str)
  : outcome (list t) :=
  convert_from full_text 0 qa_pairs [].

End Convert.

End ExportLabelStudio.

(* ================================================================== *)
(** ** The clean pairs of process_labelstudio_results.main *)
(* ================================================================== *)

Module ProcessMain.

Import Py Json.

(** The loop that builds [clean_qa] from [filtered_qa]. *)
Definition clean_qa (filtered_qa : list t) : outcome (list t) :=
  mapM (fun qa =>
          bind (ExportLabelStudio.subscript qa (lit "question")) (fun question =>
          bind (ExportLabelStudio.subscript qa (lit "answer")) (fun answer =>
          Returned (JObj [ (lit "question", question); (lit "answer", answer) ]))))
       filtered_qa.

End ProcessMain.

(* ================================================================== *)
(** ** Vocabulary of the properties *)
(* ================================================================== *)

Import Py Json GenerateQa ProcessResults.

(** The runs of the chunker's loop that return: the chunks emitted from
    cursor [start] on. *)
Inductive Chain (text : str) (chunk_size overlap : Z) (source_document : option str)
    : Z -> Z -> list Chunk.t -> Prop :=
| Chain_stop (start chunk_id : Z) :
    len text <= start ->
    Chain text chunk_size overlap source_document start chunk_id []
| Chain_emit (start chunk_id : Z) (l : list Chunk.t) :
    start < len text ->
    Chain text chunk_size overlap source_document
          (snd (chunk_at text chunk_size overlap source_document start chunk_id))
          (chunk_id + 1) l ->
    Chain text chunk_size overlap source_document start chunk_id
          (fst (chunk_at text chunk_size overlap source_document start chunk_id) :: l).

(** [sub] occurs in [s] at offset [p]. *)
Definition occurs_at (sub s : str) (p : nat) : Prop :=
  exists pre post, s = pre ++ sub ++ post /\ length pre = p.

(** [p] is the offset of the first occurrence of [sub] in [s]. *)
Definition first_occurrence (sub s : str) (p : nat) : Prop :=
  occurs_at sub s p /\ forall q, (q < p)%nat -> ~ occurs_at sub s q.

(** The probe of the specification: the first five tokens of the answer,
    lower-cased, joined by single spaces. *)
Definition probe (answer : str) : str :=
  join [space] (map lower (firstn 5 (split_ws answer))).

(** The reference of a pair whose answer was located at line [n]. *)
Definition located_reference (chunk_data : Chunk.t) (n : Z) : dict :=
  set (set (reference_of chunk_data) (lit "answer_line_in_chunk") (JInt n))
      (lit "answer_line_in_doc") (JInt (Chunk.line_start chunk_data + n)).

(** The collaborator failed on a chunk: the request raised, or what it
    returned does not parse once the fence is stripped. *)
Definition generation_fails (create : Z -> str -> outcome str)
    (json_loads : str -> outcome Json.t) (chunk_data : Chunk.t) (num_pairs : Z) : Prop :=
  (exists e, create num_pairs (Chunk.text chunk_data) = Raised e) \/
  (exists content content' e,
     create num_pairs (Chunk.text chunk_data) = Returned content /\
     strip_fence content = Returned content' /\
     json_loads content' = Raised e).

(** A reviewed record: one annotation that rates the quality "Good". *)
Definition sample_item (i : Z) : Item :=
  {| id := Some i;
     annotations := Some [ {| result := Some [ {| from_name := lit "quality";
                                                  choices := Some [lit "Good"];
                                                  text := None |} ];
                              completed_by := Some (JInt 7);
                              created_at := Some (JStr (lit "2024-05-01")) |} ] |}.

Definition sample_pair (q a : string) : Json.t :=
  JObj [ (lit "question", JStr (lit q)); (lit "answer", JStr (lit a)) ].

Definition sample_original : list Json.t :=
  [ sample_pair "Q1" "A1"; sample_pair "Q2" "A2" ].

(** [min_level], as [filter_qa_by_quality] computes it. *)
Definition threshold (min_quality : str) : Z :=
  match levels_lookup quality_levels min_quality with
  | Some v => v
  | None => 3
  end.

(** The three labels as the loop body reads them off an item [d]. *)
Definition review_of (d : dict) : Json.t := get d (lit "review") (JObj []).
Definition quality_of (r : dict) : Json.t := get r (lit "quality") (JStr (lit "Fair")).
Definition accuracy_of (r : dict) : Json.t :=
  get r (lit "accuracy") (JStr (lit "Partially Accurate")).

(** The scale of the specification: Poor < Fair < Good < Excellent. *)
Definition tier (label : str) : option Z :=
  if str_eqb label (lit "Poor") then Some 1
  else if str_eqb label (lit "Fair") then Some 2
  else if str_eqb label (lit "Good") then Some 3
  else if str_eqb label (lit "Excellent") then Some 4
  else None.

(** The accepted accuracy labels of the specification. *)
Definition acceptable (a : Json.t) : Prop :=
  a = JStr (lit "Accurate") \/ a = JStr (lit "Partially Accurate").


(** A value that can be a dictionary key. *)
Definition hashable (q : Json.t) : bool :=
  match q with
  | JList _ | JObj _ => false
  | _ => true
  end.

(** An item whose review holds the two labels [q] and [a]. *)
Definition reviewed (q a : string) : Json.t :=
  JObj [ (lit "question", JStr (lit "Q"));
         (lit "review", JObj [ (lit "accuracy", JStr (lit a));
                               (lit "quality", JStr (lit q)) ]) ].


(** A word: not empty, no whitespace in it. *)
Definition is_word (w : str) : Prop := w <> [] /\ Forall (fun c => isspace c = false) w.

(** A parsed pair the loop of [generate_qa_pairs_with_refs] cannot handle:
    not a dictionary, or without a string under "answer". *)
Definition malformed_pair (qa : Json.t) : Prop :=
  match qa with
  | JObj d => match lookup d (lit "answer") with
              | Some (JStr _) => False
              | _ => True
              end
  | _ => True
  end.

(** What the loop makes of a well-formed pair [qa] for a chunk: the same
    dictionary but for "reference", which holds the chunk's position. *)
Definition referenced (chunk_data : Chunk.t) (qa qa' : Json.t) : Prop :=
  exists d d' reference,
    qa = JObj d /\ qa' = JObj d' /\
    lookup d' (lit "reference") = Some (JObj reference) /\
    (forall k, k <> lit "reference" -> lookup d' k = lookup d k) /\
    lookup reference (lit "chunk_id") = Some (JInt (Chunk.id chunk_data)) /\
    lookup reference (lit "char_start") = Some (JInt (Chunk.char_start chunk_data)) /\
    lookup reference (lit "char_end") = Some (JInt (Chunk.char_end chunk_data)) /\
    lookup reference (lit "line_start") = Some (JInt (Chunk.line_start chunk_data)) /\
    lookup reference (lit "line_end") = Some (JInt (Chunk.line_end chunk_data)).

(** The sum of the counts of a [Counter]. *)
Definition counter_total (c : Counter) : Z :=
  fold_right (fun kv acc => snd kv + acc) 0 c.

(** [annotations] is present and not empty: the record was reviewed. *)
Definition has_annotations (item : Item) : bool :=
  negb (is_nil (match annotations item with Some l => l | None => [] end)).

(** [annotation.get('result', [])]. *)
Definition result_of (annotation : Annotation) : list Entry :=
  match result annotation with Some l => l | None => [] end.

(** A merged pair: a dictionary whose "review" is a review record. *)
Definition merged_pair (qa : Json.t) : Prop :=
  exists d review_data, qa = JObj d /\ lookup d (lit "review") = Some (review_to_json review_data).

(** A merged pair that comes from one of the original pairs, whose keys
    it keeps but for the three review keys. *)
Definition derived_from (original_qa : list Json.t) (qa : Json.t) : Prop :=
  exists d d',
    In (JObj d) original_qa /\ qa = JObj d' /\
    forall k,
      k <> lit "review" -> k <> lit "reviewer_id" -> k <> lit "review_date" ->
      lookup d' k = lookup d k.

(** A pair that has a question and an answer. *)
Definition has_question_and_answer (qa : Json.t) : Prop :=
  exists d q a,
    qa = JObj d /\ lookup d (lit "question") = Some q /\ lookup d (lit "answer") = Some a.

(** A reviewed record rated Good and Accurate. *)
Definition sample_accepted_item (i : Z) : Item :=
  {| id := Some i;
     annotations :=
       Some [ {| result := Some [ {| from_name := lit "quality";
                                     choices := Some [lit "Good"]; text := None |};
                                  {| from_name := lit "accuracy";
                                     choices := Some [lit "Accurate"]; text := None |} ];
                 completed_by := None; created_at := None |} ] |}.

(** The tier of a quality label on the scale of the specification: only
    the four names have one. *)
Definition label_tier (q : Json.t) : option Z :=
  match q with
  | JStr s => tier s
  | _ => None
  end.

(** The gate of the specification on one item: its quality label has a
    tier at least the tier of the threshold, and its accuracy label is
    "Accurate" or "Partially Accurate". *)
Definition gate (min_quality : str) (qa : Json.t) : bool :=
  match qa with
  | JObj d =>
      match review_of d with
      | JObj r =>
          match label_tier (quality_of r), tier min_quality with
          | Some n, Some m =>
              (m <=? n)
              && (eq_str (accuracy_of r) (lit "Accurate")
                  || eq_str (accuracy_of r) (lit "Partially Accurate"))
          | _, _ => false
          end
      | _ => false
      end
  | _ => false
  end.

(** An item the filter can read: a dictionary whose review, when it has
    one, is a dictionary, and whose quality label can be a dictionary key
    (a string, a number, a boolean or [None]). *)
Definition filterable (qa : Json.t) : Prop :=
  exists d r, qa = JObj d /\ review_of d = JObj r /\ hashable (quality_of r) = true.

(** The clean pair [pair] made from the accepted pair [qa]: it holds the
    question and the answer of [qa] and nothing else, and these are the
    question and the answer of one of the original pairs. *)
Definition cleaned_from (original_qa : list Json.t) (qa pair : Json.t) : Prop :=
  exists d' d q a,
    qa = JObj d' /\
    lookup d' (lit "question") = Some q /\ lookup d' (lit "answer") = Some a /\
    pair = JObj [ (lit "question", q); (lit "answer", a) ] /\
    In (JObj d) original_qa /\
    lookup d (lit "question") = Some q /\ lookup d (lit "answer") = Some a.

(* ================================================================== *)
(** ** Facts about the Python primitives *)
(* ================================================================== *)

Lemma len_nonneg {A : Type} (l : list A) : 0 <= len l.
Proof. unfold len. lia. Qed.

Lemma len_nil_iff {A : Type} (l : list A) : len l = 0 <-> l = [].
Proof.
  unfold len. destruct l as [|a l]; simpl; split; intro H; try reflexivity;
    try discriminate; lia.
Qed.

Lemma clamp_in_range (n i : Z) : 0 <= i <= n -> clamp n i = i.
Proof.
  intros [H0 H1]. unfold clamp.
  destruct (i <? 0) eqn:E; [apply Z.ltb_lt in E; lia | lia].
Qed.

(** Inside the bounds a slice is the plain substring. *)
Lemma slice_in_range {A : Type} (s : list A) (a b : Z) :
  0 <= a <= b -> b <= len s ->
  slice s a b = firstn (Z.to_nat (b - a)) (skipn (Z.to_nat a) s).
Proof.
  intros Hab Hb. unfold slice.
  rewrite !clamp_in_range by lia. reflexivity.
Qed.

Lemma slice_empty {A : Type} (s : list A) (a : Z) : 0 <= a -> slice s a a = [].
Proof.
  intros Ha. unfold slice. rewrite Z.sub_diag. reflexivity.
Qed.

Lemma slice_all {A : Type} (s : list A) : slice s 0 (len s) = s.
Proof.
  rewrite slice_in_range by (pose proof (len_nonneg s); lia).
  simpl. rewrite Z.sub_0_r. unfold len. rewrite Nat2Z.id. apply firstn_all.
Qed.

Lemma count_nonneg (c : ascii) (s : str) : 0 <= count c s.
Proof. unfold count. lia. Qed.

Lemma count_nil (c : ascii) : count c [] = 0.
Proof. reflexivity. Qed.

(* ================================================================== *)
(** ** The chunker *)
(* ================================================================== *)

Section Chunker.

Import GenerateQa.

Variable text : str.
Variables chunk_size overlap : Z.
Variable source_document : option str.

#[warnings="-notation-for-abbreviation"] Local Notation loop fuel := (chunk_loop fuel text chunk_size overlap source_document).
#[warnings="-notation-for-abbreviation"] Local Notation body := (chunk_at text chunk_size overlap source_document).
#[warnings="-notation-for-abbreviation"] Local Notation Chain := (Chain text chunk_size overlap source_document).

Lemma chunk_loop_acc (fuel : nat) :
  forall start chunk_id acc,
    loop fuel start chunk_id acc =
    bind (loop fuel start chunk_id []) (fun l => Returned (acc ++ l)).
Proof.
  induction fuel as [|fuel IH]; intros start chunk_id acc; cbn [chunk_loop].
  - reflexivity.
  - destruct (start <? len text).
    + destruct (chunk_at text chunk_size overlap source_document start chunk_id)
        as [c next] eqn:E.
      rewrite (IH next (chunk_id + 1) (acc ++ [c])).
      rewrite (IH next (chunk_id + 1) ([] ++ [c])).
      destruct (chunk_loop fuel text chunk_size overlap source_document
                  next (chunk_id + 1) []); simpl; try reflexivity.
      now rewrite <- app_assoc.
    + simpl. now rewrite app_nil_r.
Qed.

Lemma chunk_loop_unfold (fuel : nat) (start chunk_id : Z) :
  loop (S fuel) start chunk_id [] =
  if start <? len text
  then bind (loop fuel (snd (body start chunk_id)) (chunk_id + 1) [])
            (fun l => Returned (fst (body start chunk_id) :: l))
  else Returned [].
Proof.
  unfold loop, body. cbn [chunk_loop].
  destruct (start <? len text); [|reflexivity].
  destruct (chunk_at text chunk_size overlap source_document start chunk_id)
    as [c next] eqn:E.
  cbn [fst snd]. fold (loop fuel). now rewrite chunk_loop_acc.
Qed.

Lemma chunk_loop_Chain (fuel : nat) :
  forall start chunk_id l,
    loop fuel start chunk_id [] = Returned l -> Chain start chunk_id l.
Proof.
  induction fuel as [|fuel IH]; intros start chunk_id l H.
  - discriminate H.
  - rewrite chunk_loop_unfold in H.
    destruct (start <? len text) eqn:E.
    + apply Z.ltb_lt in E.
      destruct (loop fuel (snd (body start chunk_id)) (chunk_id + 1) []) as [l'| |] eqn:E';
        simpl in H; try discriminate.
      injection H as <-. apply Chain_emit; auto.
    + apply Z.ltb_ge in E. injection H as <-. now apply Chain_stop.
Qed.

Lemma Chain_chunk_loop (start chunk_id : Z) (l : list Chunk.t) :
  Chain start chunk_id l ->
  forall fuel, (length l < fuel)%nat -> loop fuel start chunk_id [] = Returned l.
Proof.
  induction 1 as [start chunk_id Hge | start chunk_id l Hlt _ IH]; intros fuel Hf.
  - destruct fuel as [|fuel]; [lia|]. rewrite chunk_loop_unfold.
    apply Z.ltb_ge in Hge. now rewrite Hge.
  - destruct fuel as [|fuel]; [simpl in Hf; lia|]. rewrite chunk_loop_unfold.
    apply Z.ltb_lt in Hlt. rewrite Hlt. simpl in Hf.
    rewrite IH by lia. reflexivity.
Qed.

(** The loop never raises, whatever the fuel and the configuration. *)
Lemma chunk_loop_never_raises (fuel : nat) :
  forall start chunk_id e, loop fuel start chunk_id [] <> Raised e.
Proof.
  induction fuel as [|fuel IH]; intros start chunk_id e.
  - discriminate.
  - rewrite chunk_loop_unfold. destruct (start <? len text); [|discriminate].
    specialize (IH (snd (body start chunk_id)) (chunk_id + 1) e).
    destruct (loop fuel (snd (body start chunk_id)) (chunk_id + 1) []);
      simpl; congruence.
Qed.

(** What the loop body writes into a chunk, and where it moves the cursor. *)
Lemma body_next (start chunk_id : Z) :
  snd (body start chunk_id) =
  if Z.min (start + chunk_size) (len text) <? len text
  then Z.min (start + chunk_size) (len text) - overlap
  else Z.min (start + chunk_size) (len text).
Proof. reflexivity. Qed.

Lemma body_char_start (start chunk_id : Z) :
  Chunk.char_start (fst (body start chunk_id)) = start.
Proof. reflexivity. Qed.

Lemma body_char_end (start chunk_id : Z) :
  Chunk.char_end (fst (body start chunk_id)) = Z.min (start + chunk_size) (len text).
Proof. reflexivity. Qed.

Lemma body_text (start chunk_id : Z) :
  Chunk.text (fst (body start chunk_id)) =
  slice text start (Z.min (start + chunk_size) (len text)).
Proof. reflexivity. Qed.

Lemma body_line_start (start chunk_id : Z) :
  Chunk.line_start (fst (body start chunk_id)) = count newline (slice text 0 start) + 1.
Proof. reflexivity. Qed.

Lemma body_line_end (start chunk_id : Z) :
  Chunk.line_end (fst (body start chunk_id)) =
  count newline (slice text 0 start)
  + count newline (Chunk.text (fst (body start chunk_id))) + 1.
Proof. reflexivity. Qed.

(** The first chunk of a run starts at the cursor. *)
Lemma Chain_head (start chunk_id : Z) (c : Chunk.t) (l : list Chunk.t) :
  Chain start chunk_id (c :: l) -> start < len text /\ c = fst (body start chunk_id).
Proof. inversion 1; subst. auto. Qed.

(** A chunk that has a successor is full, and the successor starts
    [overlap] characters before its end. *)
Lemma Chain_adjacent (start chunk_id : Z) (l : list Chunk.t) :
  Chain start chunk_id l ->
  forall k c c',
    nth_error l k = Some c -> nth_error l (S k) = Some c' ->
    Chunk.char_end c - Chunk.char_start c = chunk_size /\
    Chunk.char_start c' = Chunk.char_end c - overlap.
Proof.
  induction 1 as [|start chunk_id l Hlt Hchain IH]; intros k c c' Hk Hk'.
  - destruct k; discriminate.
  - destruct k as [|k].
    + cbn [nth_error] in Hk, Hk'.
      assert (Hc : c = fst (body start chunk_id)) by congruence.
      destruct l as [|d l]; [discriminate|].
      assert (Hd : d = c') by congruence.
      apply Chain_head in Hchain. destruct Hchain as [Hnext Hd'].
      rewrite Hc, <- Hd, Hd'.
      rewrite !body_char_start, body_char_end.
      rewrite body_next in Hnext |- *.
      destruct (Z.min (start + chunk_size) (len text) <? len text) eqn:E.
      * apply Z.ltb_lt in E. lia.
      * apply Z.ltb_ge in E. lia.
    + simpl in Hk, Hk'. eauto.
Qed.

Section Valid.

Hypothesis size_pos : 0 < chunk_size.
Hypothesis overlap_ok : 0 <= overlap < chunk_size.

Lemma body_next_bounds (start chunk_id : Z) :
  0 <= start < len text ->
  start < snd (body start chunk_id) <= len text.
Proof.
  intros Hs. rewrite body_next.
  destruct (Z.min (start + chunk_size) (len text) <? len text) eqn:E.
  - apply Z.ltb_lt in E. lia.
  - apply Z.ltb_ge in E. lia.
Qed.

(** Every chunk of a run was built at a cursor inside the text. *)
Lemma Chain_Forall (start chunk_id : Z) (l : list Chunk.t) :
  Chain start chunk_id l -> 0 <= start ->
  Forall (fun c => exists s i, 0 <= s < len text /\ c = fst (body s i)) l.
Proof.
  induction 1 as [|start chunk_id l Hlt _ IH]; intros Hs.
  - constructor.
  - constructor.
    + exists start, chunk_id. split; [lia | reflexivity].
    + apply IH. pose proof (body_next_bounds start chunk_id). lia.
Qed.

(** The last chunk of a run ends where the text ends. *)
Lemma Chain_last (start chunk_id : Z) (l : list Chunk.t) :
  Chain start chunk_id l -> 0 <= start ->
  forall l' c, l = l' ++ [c] -> Chunk.char_end c = len text.
Proof.
  induction 1 as [|start chunk_id l Hlt Hchain IH]; intros Hs l' c Heq.
  - destruct l'; discriminate.
  - destruct l' as [|d l'].
    + cbn [app] in Heq.
      assert (Hc : c = fst (body start chunk_id)) by congruence.
      assert (Hl : l = []) by congruence.
      rewrite Hl in Hchain. inversion Hchain as [s i Hge | ]; subst s i.
      rewrite Hc, body_char_end. rewrite body_next in Hge.
      destruct (Z.min (start + chunk_size) (len text) <? len text) eqn:E.
      * apply Z.ltb_lt in E. lia.
      * apply Z.ltb_ge in E. lia.
    + cbn [app] in Heq.
      assert (Hl : l = l' ++ [c]) by congruence.
      apply (IH ltac:(pose proof (body_next_bounds start chunk_id); lia) l' c Hl).
Qed.

(** From a cursor inside the text the loop returns, after at most as
    many passes as characters are left. *)
Lemma Chain_exists (n : nat) :
  forall start chunk_id,
    0 <= start -> (Z.to_nat (len text - start) <= n)%nat ->
    exists l, Chain start chunk_id l /\ (length l <= n)%nat.
Proof.
  induction n as [|n IH]; intros start chunk_id Hs Hn.
  - exists []. split; [|simpl; lia]. apply Chain_stop. lia.
  - destruct (Z.lt_ge_cases start (len text)) as [Hlt | Hge].
    + pose proof (body_next_bounds start chunk_id ltac:(lia)) as Hb.
      destruct (IH (snd (body start chunk_id)) (chunk_id + 1)) as (l & Hl & Hlen);
        [lia | lia |].
      exists (fst (body start chunk_id) :: l). split.
      * now apply Chain_emit.
      * simpl. lia.
    + exists []. split; [|simpl; lia]. now apply Chain_stop.
Qed.

End Valid.

(** A run on the empty text emits nothing. *)
Lemma Chain_empty_text (chunk_id : Z) (l : list Chunk.t) :
  text = [] -> Chain 0 chunk_id l -> l = [].
Proof.
  intros Ht H. inversion H as [|s i l' Hlt]; [reflexivity|].
  rewrite Ht in Hlt. unfold len in Hlt. simpl in Hlt. lia.
Qed.

(** A text that fits in one window is one chunk, whatever the overlap. *)
Lemma Chain_single (chunk_id : Z) (l : list Chunk.t) :
  0 < len text <= chunk_size ->
  Chain 0 chunk_id l ->
  l = [fst (body 0 chunk_id)] /\
  Chunk.char_start (fst (body 0 chunk_id)) = 0 /\
  Chunk.char_end (fst (body 0 chunk_id)) = len text.
Proof.
  intros Hlen H. inversion H as [s i Hge | s i l' Hlt Hchain]; subst; [lia|].
  rewrite body_char_start, body_char_end.
  assert (Hnext : snd (body 0 chunk_id) = len text).
  { rewrite body_next.
    destruct (Z.min (0 + chunk_size) (len text) <? len text) eqn:E.
    - apply Z.ltb_lt in E. lia.
    - lia. }
  rewrite Hnext in Hchain.
  inversion Hchain as [|s i l'' Hlt' _]; subst; [|lia].
  repeat split; lia.
Qed.

Lemma Chain_single_run (chunk_id : Z) :
  0 < len text <= chunk_size ->
  Chain 0 chunk_id [fst (body 0 chunk_id)].
Proof.
  intros Hlen. apply Chain_emit; [lia|]. apply Chain_stop.
  rewrite body_next.
  destruct (Z.min (0 + chunk_size) (len text) <? len text) eqn:E.
  - apply Z.ltb_lt in E. lia.
  - lia.
Qed.

(** When the window is no longer than the overlap and shorter than the
    text, the cursor never moves forward and the loop uses up any fuel. *)
Lemma chunk_loop_stuck (fuel : nat) :
  0 < chunk_size <= overlap -> chunk_size < len text ->
  forall start chunk_id, start <= 0 -> loop fuel start chunk_id [] = OutOfFuel.
Proof.
  intros Hcfg Hlen. induction fuel as [|fuel IH]; intros start chunk_id Hs.
  - reflexivity.
  - rewrite chunk_loop_unfold.
    assert (E : (start <? len text) = true) by (apply Z.ltb_lt; lia).
    rewrite E. rewrite IH; [reflexivity|].
    rewrite body_next.
    assert (E' : (Z.min (start + chunk_size) (len text) <? len text) = true)
      by (apply Z.ltb_lt; lia).
    rewrite E'. lia.
Qed.

End Chunker.

(** The loop is deterministic: a cursor has one run. *)
Lemma Chain_deterministic (text : str) (chunk_size overlap : Z)
  (source_document : option str) (start chunk_id : Z) (l : list Chunk.t) :
  Chain text chunk_size overlap source_document start chunk_id l ->
  forall l', Chain text chunk_size overlap source_document start chunk_id l' -> l = l'.
Proof.
  induction 1 as [s i Hge | s i l Hlt _ IH]; intros l' H'.
  - inversion H'; subst; [reflexivity | lia].
  - inversion H' as [| s' i' l'' Hlt' Hchain']; subst; [lia|].
    f_equal. now apply IH.
Qed.

(** Fuel only decides whether the chunker returns, never what it returns. *)
Lemma chunker_fuel_irrelevant (text : str) (chunk_size overlap : Z)
  (source_document : option str) (fuel fuel' : nat) (l l' : list Chunk.t) :
  chunk_text_with_positions fuel text chunk_size overlap source_document = Returned l ->
  chunk_text_with_positions fuel' text chunk_size overlap source_document = Returned l' ->
  l = l'.
Proof.
  unfold chunk_text_with_positions. intros H H'.
  apply chunk_loop_Chain in H. apply chunk_loop_Chain in H'.
  eapply Chain_deterministic; eassumption.
Qed.

(** C4.  With [chunk_size > 0] and [0 <= overlap < chunk_size] the chunker
    terminates on every text: from [len(text) + 1] units of fuel on it
    returns, always the same list.  The list it returns is empty for the
    empty text; it is a single chunk with [char_start = 0] and
    [char_end = len(text)] for a non-empty text no longer than
    [chunk_size]; and for every non-empty text its last chunk has
    [char_end = len(text)]. *)
Theorem chunker_terminates_and_covers (text : str) (chunk_size overlap : Z)
  (source_document : option str) :
  0 < chunk_size -> 0 <= overlap < chunk_size ->
  (exists l, forall fuel, (length text < fuel)%nat ->
     chunk_text_with_positions fuel text chunk_size overlap source_document = Returned l) /\
  (forall fuel l,
     chunk_text_with_positions fuel text chunk_size overlap source_document = Returned l ->
     (text = [] -> l = []) /\
     (text <> [] -> len text <= chunk_size ->
        exists c, l = [c] /\ Chunk.char_start c = 0 /\ Chunk.char_end c = len text) /\
     (text <> [] ->
        exists l' c, l = l' ++ [c] /\ Chunk.char_end c = len text)).
Proof.
  intros Hsize Hov. split.
  - destruct (Chain_exists text chunk_size overlap source_document Hsize Hov
                (length text) 0 0) as (l & Hl & Hlen).
    + lia.
    + unfold len. lia.
    + exists l. intros fuel Hf. unfold chunk_text_with_positions.
      apply Chain_chunk_loop; [assumption | lia].
  - intros fuel l H. unfold chunk_text_with_positions in H.
    apply chunk_loop_Chain in H.
    assert (Hpos : text <> [] -> 0 < len text).
    { intros Hne. pose proof (len_nonneg text). pose proof (len_nil_iff text).
      destruct (Z.eq_dec (len text) 0); [tauto | lia]. }
    split; [|split].
    + intros Ht. eapply Chain_empty_text; eauto.
    + intros Hne Hle.
      destruct (Chain_single text chunk_size overlap source_document 0 l) as (-> & Hs & He);
        [specialize (Hpos Hne); lia | assumption |].
      eexists. repeat split; eassumption.
    + intros Hne.
      assert (Hl : l <> []).
      { intros ->. inversion H. specialize (Hpos Hne). lia. }
      destruct (exists_last Hl) as (l' & c & ->).
      exists l', c. split; [reflexivity|].
      eapply Chain_last; eauto. lia.
Qed.

(** C4, on a text of ten characters cut into windows of four that overlap
    by one. *)
Lemma chunker_terminates_and_covers_witness :
  let text := lit "abcdefghij" in
  (exists l, forall fuel, (length text < fuel)%nat ->
     chunk_text_with_positions fuel text 4 1 None = Returned l) /\
  (forall fuel l,
     chunk_text_with_positions fuel text 4 1 None = Returned l ->
     (text = [] -> l = []) /\
     (text <> [] -> len text <= 4 ->
        exists c, l = [c] /\ Chunk.char_start c = 0 /\ Chunk.char_end c = len text) /\
     (text <> [] ->
        exists l' c, l = l' ++ [c] /\ Chunk.char_end c = len text)).
Proof.
  intros text. apply (chunker_terminates_and_covers text 4 1 None); lia.
Defined.

(** The ranges of the run on any text of 4500 characters with windows of
    2000 overlapping by 200. *)
Lemma chunker_ranges_4500 (text : str) (source_document : option str) (fuel : nat) :
  len text = 4500 -> (3 < fuel)%nat ->
  exists l,
  chunk_text_with_positions fuel text 2000 200 source_document = Returned l /\
  map (fun c => (Chunk.char_start c, Chunk.char_end c)) l =
  [(0, 2000); (1800, 3800); (3600, 4500)].
Proof.
  intros Ht Hf.
  assert (Hchain : Chain text 2000 200 source_document 0 0
            [ fst (chunk_at text 2000 200 source_document 0 0);
              fst (chunk_at text 2000 200 source_document 1800 1);
              fst (chunk_at text 2000 200 source_document 3600 2) ]).
  { assert (N0 : snd (chunk_at text 2000 200 source_document 0 0) = 1800)
      by (rewrite body_next, Ht; reflexivity).
    assert (N1 : snd (chunk_at text 2000 200 source_document 1800 1) = 3600)
      by (rewrite body_next, Ht; reflexivity).
    assert (N2 : snd (chunk_at text 2000 200 source_document 3600 2) = 4500)
      by (rewrite body_next, Ht; reflexivity).
    apply Chain_emit; [lia|]. rewrite N0.
    apply (Chain_emit text 2000 200 source_document 1800 1); [lia|]. rewrite N1.
    apply (Chain_emit text 2000 200 source_document 3600 2); [lia|]. rewrite N2.
    apply Chain_stop. lia. }
  eexists. split.
  - unfold chunk_text_with_positions. apply Chain_chunk_loop; [exact Hchain|].
    simpl. lia.
  - cbn [map]. rewrite !body_char_start, !body_char_end, Ht. reflexivity.
Qed.

(** C5.  With [chunk_size > 0] and [0 <= overlap < chunk_size]: a chunk
    that is not the last spans exactly [chunk_size] characters and its
    successor starts at its [char_end - overlap]; every chunk lies inside
    the document and its [text] is the slice
    [text[char_start:char_end]]; and a text of 4500 characters with
    [chunk_size = 2000] and [overlap = 200] gives the ranges
    [0,2000), [1800,3800), [3600,4500). *)
Theorem chunk_geometry (text : str) (chunk_size overlap : Z)
  (source_document : option str) :
  0 < chunk_size -> 0 <= overlap < chunk_size ->
  (forall fuel l,
     chunk_text_with_positions fuel text chunk_size overlap source_document = Returned l ->
     (forall k c c',
        nth_error l k = Some c -> nth_error l (S k) = Some c' ->
        Chunk.char_end c - Chunk.char_start c = chunk_size /\
        Chunk.char_start c' = Chunk.char_end c - overlap) /\
     (forall c, In c l ->
        0 <= Chunk.char_start c < Chunk.char_end c /\
        Chunk.char_end c <= len text /\
        Chunk.text c = slice text (Chunk.char_start c) (Chunk.char_end c))) /\
  (forall (t : str) (fuel : nat),
     len t = 4500 -> (3 < fuel)%nat ->
     exists l,
       chunk_text_with_positions fuel t 2000 200 source_document = Returned l /\
       map (fun c => (Chunk.char_start c, Chunk.char_end c)) l =
       [(0, 2000); (1800, 3800); (3600, 4500)]).
Proof.
  intros Hsize Hov. split.
  - intros fuel l H. unfold chunk_text_with_positions in H.
    apply chunk_loop_Chain in H. split.
    + eapply Chain_adjacent; eassumption.
    + intros c Hin.
      pose proof (Chain_Forall text chunk_size overlap source_document Hsize Hov 0 0 l H
                    (Z.le_refl 0)) as HF.
      rewrite Forall_forall in HF. destruct (HF c Hin) as (s & i & Hs & ->).
      rewrite body_char_start, body_char_end, body_text.
      repeat split; lia.
  - intros t fuel Ht Hf. now apply chunker_ranges_4500.
Qed.

(** C5, on a text of ten characters cut into windows of four that overlap
    by one. *)
Lemma chunk_geometry_witness :
  let text := lit "abcdefghij" in
  (forall fuel l,
     chunk_text_with_positions fuel text 4 1 None = Returned l ->
     (forall k c c',
        nth_error l k = Some c -> nth_error l (S k) = Some c' ->
        Chunk.char_end c - Chunk.char_start c = 4 /\
        Chunk.char_start c' = Chunk.char_end c - 1) /\
     (forall c, In c l ->
        0 <= Chunk.char_start c < Chunk.char_end c /\
        Chunk.char_end c <= len text /\
        Chunk.text c = slice text (Chunk.char_start c) (Chunk.char_end c))) /\
  (forall (t : str) (fuel : nat),
     len t = 4500 -> (3 < fuel)%nat ->
     exists l,
       chunk_text_with_positions fuel t 2000 200 None = Returned l /\
       map (fun c => (Chunk.char_start c, Chunk.char_end c)) l =
       [(0, 2000); (1800, 3800); (3600, 4500)]).
Proof.
  intros text. apply (chunk_geometry text 4 1 None); lia.
Defined.

(** C6.  With [chunk_size > 0] and [0 <= overlap < chunk_size], every
    chunk has [line_start] one more than the newlines of
    [text[0:char_start]] and [line_end] equal to [line_start] plus the
    newlines of its own text; both are at least 1, and the first chunk has
    [line_start = 1]. *)
Theorem chunk_lines (text : str) (chunk_size overlap : Z)
  (source_document : option str) :
  0 < chunk_size -> 0 <= overlap < chunk_size ->
  forall fuel l,
  chunk_text_with_positions fuel text chunk_size overlap source_document = Returned l ->
  (forall c, In c l ->
       Chunk.line_start c = 1 + count newline (slice text 0 (Chunk.char_start c)) /\
       Chunk.line_end c = Chunk.line_start c + count newline (Chunk.text c) /\
       1 <= Chunk.line_start c /\ 1 <= Chunk.line_end c) /\
  (forall c l', l = c :: l' -> Chunk.line_start c = 1).
Proof.
  intros Hsize Hov fuel l H. unfold chunk_text_with_positions in H.
  apply chunk_loop_Chain in H. split.
  - intros c Hin.
    pose proof (Chain_Forall text chunk_size overlap source_document Hsize Hov 0 0 l H
                  (Z.le_refl 0)) as HF.
    rewrite Forall_forall in HF. destruct (HF c Hin) as (s & i & Hs & ->).
    rewrite body_line_end, body_line_start, body_char_start.
    pose proof (count_nonneg newline (slice text 0 s)).
    pose proof (count_nonneg newline
                  (Chunk.text (fst (chunk_at text chunk_size overlap source_document s i)))).
    repeat split; lia.
  - intros c l' ->. apply Chain_head in H. destruct H as [_ ->].
    rewrite body_line_start, slice_empty by lia. reflexivity.
Qed.

(** C6, on three lines cut into windows of four that overlap by one. *)
Lemma chunk_lines_witness :
  let text := lit "ab
cd
ef" in
  exists l,
    chunk_text_with_positions 10 text 4 1 None = Returned l /\
    map Chunk.line_start l = [1; 2; 3] /\
    (forall c, In c l ->
       Chunk.line_start c = 1 + count newline (slice text 0 (Chunk.char_start c)) /\
       Chunk.line_end c = Chunk.line_start c + count newline (Chunk.text c) /\
       1 <= Chunk.line_start c /\ 1 <= Chunk.line_end c) /\
    (forall c l', l = c :: l' -> Chunk.line_start c = 1).
Proof.
  intros text. eexists. split; [reflexivity|]. split; [reflexivity|].
  apply (chunk_lines text 4 1 None ltac:(lia) ltac:(lia) 10%nat _ eq_refl).
Defined.

(** The chunker has no [raise] and applies no operation that can fail on a
    string and two integers: whatever the configuration and the fuel, it
    does not raise. *)
Lemma chunker_never_raises (text : str) (chunk_size overlap : Z)
  (source_document : option str) (fuel : nat) (e : exn) :
  chunk_text_with_positions fuel text chunk_size overlap source_document <> Raised e.
Proof. apply chunk_loop_never_raises. Qed.

(** With [0 < chunk_size <= overlap] and a text longer than the window the
    cursor goes back after the first chunk: no amount of fuel lets the
    chunker return. *)
Lemma chunker_stuck (text : str) (chunk_size overlap : Z)
  (source_document : option str) (fuel : nat) :
  0 < chunk_size <= overlap -> chunk_size < len text ->
  chunk_text_with_positions fuel text chunk_size overlap source_document = OutOfFuel.
Proof.
  intros Hcfg Hlen. unfold chunk_text_with_positions.
  apply chunk_loop_stuck; [assumption | assumption | lia].
Qed.

Example chunker_stuck_ab (fuel : nat) :
  chunk_text_with_positions fuel (lit "ab") 1 1 None = OutOfFuel.
Proof. apply chunker_stuck; [lia | reflexivity]. Qed.

(** C1 as stated fails.  With [overlap = 7 >= chunk_size = 5] the text
    "abc" is not rejected: no fuel makes the call raise, and it returns the
    one chunk [0, 3). *)
Lemma invalid_configuration_accepted :
  5 <= 7 /\
  (~ exists fuel e, chunk_text_with_positions fuel (lit "abc") 5 7 None = Raised e) /\
  exists c,
  chunk_text_with_positions 2 (lit "abc") 5 7 None = Returned [c] /\
  Chunk.char_start c = 0 /\ Chunk.char_end c = 3 /\ Chunk.text c = lit "abc".
Proof.
  split; [lia|]. split.
  - intros (fuel & e & H). exact (chunker_never_raises _ _ _ _ _ _ H).
  - eexists. split; [reflexivity|]. repeat split.
Qed.

(** C1, amended.  A configuration with [overlap >= chunk_size] or
    [chunk_size <= 0] is not rejected: the chunker raises on no text; on
    the empty text it returns no chunk; on a non-empty text no longer than
    [chunk_size] it returns the single chunk [0, len(text)). *)
Theorem invalid_configuration_not_rejected (text : str) (chunk_size overlap : Z)
  (source_document : option str) :
  chunk_size <= overlap \/ chunk_size <= 0 ->
  (forall fuel e,
     chunk_text_with_positions fuel text chunk_size overlap source_document <> Raised e) /\
  (text = [] ->
  forall fuel, (0 < fuel)%nat ->
     chunk_text_with_positions fuel text chunk_size overlap source_document = Returned []) /\
  (0 < len text <= chunk_size ->
  forall fuel, (1 < fuel)%nat ->
     exists c,
       chunk_text_with_positions fuel text chunk_size overlap source_document
         = Returned [c] /\
       Chunk.char_start c = 0 /\ Chunk.char_end c = len text).
Proof.
  intros _. split; [|split].
  - intros fuel e. apply chunker_never_raises.
  - intros Ht fuel Hf. unfold chunk_text_with_positions.
    apply Chain_chunk_loop; [|simpl; lia].
    apply Chain_stop. rewrite Ht. reflexivity.
  - intros Hlen fuel Hf.
    exists (fst (chunk_at text chunk_size overlap source_document 0 0)). split.
    + unfold chunk_text_with_positions.
      apply Chain_chunk_loop; [|simpl; lia]. now apply Chain_single_run.
    + rewrite body_char_start, body_char_end. lia.
Qed.

(** C1 amended, at [chunk_size = 5], [overlap = 7] and the text "abc". *)
Lemma invalid_configuration_not_rejected_witness :
  let text := lit "abc" in
  (forall fuel e, chunk_text_with_positions fuel text 5 7 None <> Raised e) /\
  (text = [] ->
  forall fuel, (0 < fuel)%nat ->
     chunk_text_with_positions fuel text 5 7 None = Returned []) /\
  (0 < len text <= 5 ->
  forall fuel, (1 < fuel)%nat ->
     exists c,
       chunk_text_with_positions fuel text 5 7 None = Returned [c] /\
       Chunk.char_start c = 0 /\ Chunk.char_end c = len text).
Proof.
  intros text. apply (invalid_configuration_not_rejected text 5 7 None). left. lia.
Defined.

(* ================================================================== *)
(** ** The answer locator *)
(* ================================================================== *)

Lemma str_eqb_eq (a b : str) : str_eqb a b = true <-> a = b.
Proof.
  revert b. induction a as [|x a IH]; intros [|y b]; simpl; split; intro H;
  try reflexivity; try discriminate.
  - apply andb_true_iff in H. destruct H as [Hxy Hab].
    apply Ascii.eqb_eq in Hxy. apply IH in Hab. congruence.
  - injection H as -> ->. apply andb_true_iff. split.
    + apply Ascii.eqb_refl.
    + now apply IH.
Qed.

Lemma str_eqb_refl (a : str) : str_eqb a a = true.
Proof. now apply str_eqb_eq. Qed.

Lemma str_eqb_neq (a b : str) : a <> b -> str_eqb a b = false.
Proof.
  intros H. destruct (str_eqb a b) eqn:E; [|reflexivity].
  apply str_eqb_eq in E. contradiction.
Qed.

Lemma startswith_iff (p s : str) :
  startswith p s = true <-> exists post, s = p ++ post.
Proof.
  revert s. induction p as [|x p IH]; intros s; simpl.
  - split; [intros _; now exists s | reflexivity].
  - destruct s as [|y s].
    + split; [discriminate | intros (post & H); discriminate].
    + rewrite andb_true_iff, Ascii.eqb_eq, IH. split.
      * intros (-> & post & ->). now exists post.
      * intros (post & H). injection H as -> ->. split; [reflexivity | now exists post].
Qed.

Lemma occurs_at_0 (sub s : str) : occurs_at sub s 0 <-> startswith sub s = true.
Proof.
  rewrite startswith_iff. split.
  - intros (pre & post & -> & Hlen). destruct pre; [|discriminate]. now exists post.
  - intros (post & ->). now exists [], post.
Qed.

Lemma occurs_at_S (sub : str) (c : ascii) (s : str) (p : nat) :
  occurs_at sub (c :: s) (S p) <-> occurs_at sub s p.
Proof.
  split.
  - intros (pre & post & H & Hlen). destruct pre as [|x pre]; [discriminate|].
    simpl in H, Hlen. injection H as -> ->. exists pre, post. split; [reflexivity | lia].
  - intros (pre & post & -> & Hlen). exists (c :: pre), post. split; [reflexivity|].
    simpl. lia.
Qed.

Lemma occurs_at_nil (sub : str) (p : nat) : occurs_at sub [] (S p) -> False.
Proof. intros (pre & post & H & Hlen). destruct pre; discriminate. Qed.

(** [str.find]: the offset of the first occurrence, or -1 when there is
    none. *)
Lemma find_from_spec (sub s : str) :
  forall i,
  (find_from i sub s = -1 /\ forall p, ~ occurs_at sub s p) \/
  (exists p, find_from i sub s = i + Z.of_nat p /\ first_occurrence sub s p).
Proof.
  induction s as [|c s IH]; intros i.
  - cbn [find_from]. destruct (startswith sub []) eqn:E.
    + right. exists O. split; [lia|]. split; [now apply occurs_at_0 | intros q Hq; lia].
    + left. split; [reflexivity|]. intros [|p] H.
      * apply occurs_at_0 in H. congruence.
      * now apply occurs_at_nil in H.
  - cbn [find_from]. destruct (startswith sub (c :: s)) eqn:E.
    + right. exists O. split; [lia|]. split; [now apply occurs_at_0 | intros q Hq; lia].
    + destruct (IH (i + 1)) as [[Hf Hno] | (p & Hf & Hocc & Hmin)].
      * left. split; [assumption|]. intros [|p] H.
        -- apply occurs_at_0 in H. congruence.
        -- apply occurs_at_S in H. now apply (Hno p).
      * right. exists (S p). split; [lia|]. split.
        -- now apply occurs_at_S.
        -- intros [|q] Hq H.
           ++ apply occurs_at_0 in H. congruence.
           ++ apply occurs_at_S in H. apply (Hmin q); [lia | assumption].
Qed.

Lemma first_occurrence_unique (sub s : str) (p q : nat) :
  first_occurrence sub s p -> first_occurrence sub s q -> p = q.
Proof.
  intros [Hp Hminp] [Hq Hminq].
  destruct (Nat.lt_trichotomy p q) as [H | [H | H]]; [|assumption|].
  - exfalso. now apply (Hminq p).
  - exfalso. now apply (Hminp q).
Qed.

Lemma find_found (sub s : str) (p : nat) :
  first_occurrence sub s p -> find s sub = Z.of_nat p.
Proof.
  intros H. unfold find.
  destruct (find_from_spec sub s 0) as [[_ Hno] | (q & Hf & Hq)].
  - exfalso. destruct H as [H _]. now apply (Hno p).
  - rewrite Hf. rewrite (first_occurrence_unique _ _ _ _ H Hq). lia.
Qed.

Lemma find_not_found (sub s : str) :
  (forall p, ~ occurs_at sub s p) -> find s sub = -1.
Proof.
  intros H. unfold find.
  destruct (find_from_spec sub s 0) as [[Hf _] | (q & _ & [Hq _])].
  - assumption.
  - exfalso. now apply (H q).
Qed.

Lemma find_empty (s : str) : find s [] = 0.
Proof. unfold find. destruct s; reflexivity. Qed.

Lemma isspace_lower_char (c : ascii) : isspace (lower_char c) = isspace c.
Proof. destruct c as [[] [] [] [] [] [] [] []]; reflexivity. Qed.

Lemma is_nil_map {A B : Type} (f : A -> B) (l : list A) : is_nil (map f l) = is_nil l.
Proof. destruct l; reflexivity. Qed.

(** Lower-casing keeps the whitespace where it is, so it commutes with
    [split]. *)
Lemma split_ws_from_lower (s : str) :
  forall cur, split_ws_from (lower cur) (lower s) = map lower (split_ws_from cur s).
Proof.
  unfold lower. induction s as [|c s IH]; intros cur; cbn [map split_ws_from].
  - rewrite is_nil_map. destruct (is_nil cur); [reflexivity|].
    cbn [map]. now rewrite map_rev.
  - rewrite isspace_lower_char. destruct (isspace c).
    + rewrite is_nil_map. destruct (is_nil cur).
      * apply (IH []).
      * cbn [map]. rewrite map_rev. f_equal. apply (IH []).
    + apply (IH (c :: cur)).
Qed.

Lemma split_ws_lower (s : str) : split_ws (lower s) = map lower (split_ws s).
Proof. apply (split_ws_from_lower s []). Qed.

Lemma slice_prefix {A : Type} (l : list A) (n : nat) :
  slice l 0 (Z.of_nat n) = firstn n l.
Proof.
  unfold slice, clamp. pose proof (len_nonneg l) as Hl.
  replace (0 <? 0) with false by reflexivity.
  destruct (Z.of_nat n <? 0) eqn:E; [apply Z.ltb_lt in E; lia|].
  rewrite (Z.min_l 0 (len l)) by lia. cbn [Z.to_nat skipn]. rewrite Z.sub_0_r.
  destruct (Z.le_ge_cases (Z.of_nat n) (len l)) as [H | H].
  - rewrite Z.min_l by lia. now rewrite Nat2Z.id.
  - rewrite Z.min_r by lia. unfold len in *. rewrite Nat2Z.id.
    rewrite firstn_all. symmetry. apply firstn_all2. lia.
Qed.

(** The locator searches for that probe. *)
Lemma find_answer_location_probe (answer chunk_text : str) :
  find_answer_location answer chunk_text =
  let pos := find (lower chunk_text) (probe answer) in
  if negb (pos =? -1) then Some (count newline (slice chunk_text 0 pos)) else None.
Proof.
  unfold find_answer_location, probe.
  rewrite split_ws_lower. change 5 with (Z.of_nat 5).
  rewrite slice_prefix, firstn_map. reflexivity.
Qed.

Lemma find_first_occurrence (sub s : str) (p : nat) :
  find s sub = Z.of_nat p -> first_occurrence sub s p.
Proof.
  unfold find. intros H.
  destruct (find_from_spec sub s 0) as [[Hf _] | (q & Hf & Hq)].
  - lia.
  - replace p with q by lia. assumption.
Qed.

Lemma found_or_absent (sub s : str) :
  (exists p, first_occurrence sub s p) \/ (forall p, ~ occurs_at sub s p).
Proof.
  destruct (find_from_spec sub s 0) as [[_ Hno] | (q & _ & Hq)].
  - now right.
  - left. now exists q.
Qed.

Lemma locate_found (answer chunk_text : str) (p : nat) :
  first_occurrence (probe answer) (lower chunk_text) p ->
  find_answer_location answer chunk_text =
  Some (count newline (slice chunk_text 0 (Z.of_nat p))).
Proof.
  intros H. rewrite find_answer_location_probe. cbv zeta.
  rewrite (find_found _ _ _ H).
  destruct (Z.of_nat p =? -1) eqn:E; [apply Z.eqb_eq in E; lia | reflexivity].
Qed.

Lemma locate_absent (answer chunk_text : str) :
  (forall p, ~ occurs_at (probe answer) (lower chunk_text) p) ->
  find_answer_location answer chunk_text = None.
Proof.
  intros H. rewrite find_answer_location_probe. cbv zeta.
  now rewrite (find_not_found _ _ H).
Qed.

(** *** Dictionaries *)

Lemma lookup_set_same (d : dict) (k : str) (v : Json.t) :
  lookup (set d k v) k = Some v.
Proof.
  induction d as [|[k' v'] d IH]; cbn [set lookup].
  - now rewrite str_eqb_refl.
  - destruct (str_eqb k' k) eqn:E; cbn [lookup]; rewrite E; [reflexivity | exact IH].
Qed.

Lemma lookup_set_other (d : dict) (k k' : str) (v : Json.t) :
  k <> k' -> lookup (set d k v) k' = lookup d k'.
Proof.
  intros Hne. induction d as [|[k0 v0] d IH]; cbn [set lookup].
  - now rewrite str_eqb_neq.
  - destruct (str_eqb k0 k) eqn:E; cbn [lookup].
    + apply str_eqb_eq in E. subst k0. now rewrite (str_eqb_neq k k').
    + destruct (str_eqb k0 k'); [reflexivity | exact IH].
Qed.

(** *** The caller: what [add_reference] writes into the reference *)

Lemma add_reference_found (chunk_data : Chunk.t) (d : dict) (a : str) (n : Z) :
  lookup d (lit "answer") = Some (JStr a) ->
  find_answer_location a (Chunk.text chunk_data) = Some n ->
  add_reference chunk_data (JObj d) =
  Returned (JObj (set (set d (lit "reference") (JObj (reference_of chunk_data)))
                      (lit "reference") (JObj (located_reference chunk_data n)))).
Proof.
  intros Ha Hn. unfold add_reference, getitem.
  rewrite lookup_set_other by discriminate. rewrite Ha. cbn [bind]. now rewrite Hn.
Qed.

Lemma add_reference_absent (chunk_data : Chunk.t) (d : dict) (a : str) :
  lookup d (lit "answer") = Some (JStr a) ->
  find_answer_location a (Chunk.text chunk_data) = None ->
  add_reference chunk_data (JObj d) =
  Returned (JObj (set d (lit "reference") (JObj (reference_of chunk_data)))).
Proof.
  intros Ha Hn. unfold add_reference, getitem.
  rewrite lookup_set_other by discriminate. rewrite Ha. cbn [bind]. now rewrite Hn.
Qed.

Lemma located_reference_lines (chunk_data : Chunk.t) (n : Z) :
  lookup (located_reference chunk_data n) (lit "answer_line_in_chunk") = Some (JInt n) /\
  lookup (located_reference chunk_data n) (lit "answer_line_in_doc")
  = Some (JInt (Chunk.line_start chunk_data + n)).
Proof. split; reflexivity. Qed.

Lemma plain_reference_lines (chunk_data : Chunk.t) :
  lookup (reference_of chunk_data) (lit "answer_line_in_chunk") = None /\
  lookup (reference_of chunk_data) (lit "answer_line_in_doc") = None.
Proof. split; reflexivity. Qed.

(** What the caller leaves in [qa['reference']], in both cases. *)
Lemma add_reference_lines (chunk_data : Chunk.t) (d : dict) (a : str) :
  lookup d (lit "answer") = Some (JStr a) ->
  exists d' reference,
  add_reference chunk_data (JObj d) = Returned (JObj d') /\
  lookup d' (lit "reference") = Some (JObj reference) /\
  match find_answer_location a (Chunk.text chunk_data) with
  | Some n =>
        lookup reference (lit "answer_line_in_chunk") = Some (JInt n) /\
        lookup reference (lit "answer_line_in_doc")
        = Some (JInt (Chunk.line_start chunk_data + n))
  | None =>
        lookup reference (lit "answer_line_in_chunk") = None /\
        lookup reference (lit "answer_line_in_doc") = None
  end.
Proof.
  intros Ha. destruct (find_answer_location a (Chunk.text chunk_data)) as [n|] eqn:E.
  - eexists _, _. split; [now apply (add_reference_found chunk_data d a n)|].
    split; [apply lookup_set_same | apply located_reference_lines].
  - eexists _, _. split; [now apply (add_reference_absent chunk_data d a)|].
    split; [apply lookup_set_same | apply plain_reference_lines].
Qed.

Example locate_bond :
  find_answer_location (lit "The bond matures in 2030")
  (lit "Terms and conditions
The Bond  matures in 2030 under German law") = None /\
  find_answer_location (lit "The  bond MATURES in 2030 and not before")
  (lit "Terms and conditions
the Bond matures in 2030 under German law") = Some 1 /\
  find_answer_location (lit "xyz not present") (lit "The bond matures in 2030") = None.
Proof. repeat split. Qed.

(** C7.  The locator searches the lower-cased chunk text for the probe
    (the first five whitespace-separated tokens of the answer, lower-cased,
    joined by single spaces).  When the first occurrence is at offset [p]
    it returns the number of newlines of [chunk_text[0:p]]; when the probe
    does not occur it returns [None]; one of the two is always the case.
    The caller then writes [answer_line_in_chunk] and
    [answer_line_in_doc = line_start + offset] into the reference when a
    line was returned, and neither key otherwise. *)
Theorem locator_algorithm (answer chunk_text : str) :
  (forall p,
     first_occurrence (probe answer) (lower chunk_text) p ->
     find_answer_location answer chunk_text
     = Some (count newline (slice chunk_text 0 (Z.of_nat p)))) /\
  ((forall p, ~ occurs_at (probe answer) (lower chunk_text) p) ->
  find_answer_location answer chunk_text = None) /\
  ((exists p, first_occurrence (probe answer) (lower chunk_text) p) \/
  (forall p, ~ occurs_at (probe answer) (lower chunk_text) p)) /\
  (forall chunk_data d,
     Chunk.text chunk_data = chunk_text ->
     lookup d (lit "answer") = Some (JStr answer) ->
     exists d' reference,
       add_reference chunk_data (JObj d) = Returned (JObj d') /\
       lookup d' (lit "reference") = Some (JObj reference) /\
       match find_answer_location answer chunk_text with
       | Some n =>
           lookup reference (lit "answer_line_in_chunk") = Some (JInt n) /\
           lookup reference (lit "answer_line_in_doc")
           = Some (JInt (Chunk.line_start chunk_data + n))
       | None =>
           lookup reference (lit "answer_line_in_chunk") = None /\
           lookup reference (lit "answer_line_in_doc") = None
       end).
Proof.
  split; [|split; [|split]].
  - apply locate_found.
  - apply locate_absent.
  - apply found_or_absent.
  - intros chunk_data d <- Ha. now apply add_reference_lines.
Qed.

(** C7, on the bond example: the probe first occurs at offset 21, on the
    second line of the chunk. *)
Lemma locator_algorithm_witness :
  let answer := lit "The bond matures in 2030" in
  let chunk_text := lit "Terms and conditions
The bond matures in 2030 under German law" in
  first_occurrence (probe answer) (lower chunk_text) 21 /\
  find_answer_location answer chunk_text
  = Some (count newline (slice chunk_text 0 (Z.of_nat 21))).
Proof.
  intros answer chunk_text.
  assert (H : first_occurrence (probe answer) (lower chunk_text) 21)
  by (apply find_first_occurrence; reflexivity).
  split; [exact H|].
  exact (proj1 (locator_algorithm answer chunk_text) 21%nat H).
Defined.

Lemma split_ws_blank (s : str) :
  forallb isspace s = true -> split_ws s = [].
Proof.
  unfold split_ws. induction s as [|c s IH]; cbn [forallb split_ws_from is_nil].
  - reflexivity.
  - intros H. apply andb_true_iff in H. destruct H as [Hc Hs].
    rewrite Hc. now apply IH.
Qed.

Lemma probe_blank (answer : str) :
  forallb isspace answer = true -> probe answer = [].
Proof. intros H. unfold probe. now rewrite split_ws_blank. Qed.

Lemma locate_blank (answer chunk_text : str) :
  forallb isspace answer = true -> find_answer_location answer chunk_text = Some 0.
Proof.
  intros H. rewrite find_answer_location_probe, probe_blank by assumption.
  cbv zeta. rewrite find_empty. cbn [Z.eqb negb].
  rewrite slice_empty by lia. reflexivity.
Qed.

(** C10.  An answer that is empty or all whitespace has the empty probe,
    which every chunk text contains at offset 0: the locator returns 0 and
    never [None], and the caller writes [answer_line_in_chunk = 0] and
    [answer_line_in_doc = line_start]. *)
Theorem blank_answer_located_at_chunk_start (answer chunk_text : str) :
  forallb isspace answer = true ->
  probe answer = [] /\
  find (lower chunk_text) (probe answer) = 0 /\
  find_answer_location answer chunk_text = Some 0 /\
  (forall chunk_data d,
     Chunk.text chunk_data = chunk_text ->
     lookup d (lit "answer") = Some (JStr answer) ->
     exists d' reference,
       add_reference chunk_data (JObj d) = Returned (JObj d') /\
       lookup d' (lit "reference") = Some (JObj reference) /\
       lookup reference (lit "answer_line_in_chunk") = Some (JInt 0) /\
       lookup reference (lit "answer_line_in_doc")
       = Some (JInt (Chunk.line_start chunk_data))).
Proof.
  intros H. split; [now apply probe_blank|]. split.
  - rewrite probe_blank by assumption. apply find_empty.
  - split; [now apply locate_blank|].
    intros chunk_data d <- Ha.
    destruct (add_reference_lines chunk_data d answer Ha) as (d' & reference & Hd & Hr & Hl).
    rewrite locate_blank in Hl by assumption. rewrite Z.add_0_r in Hl.
    exists d', reference. tauto.
Qed.

(** C10, on an answer of two spaces and a tab. *)
Lemma blank_answer_located_at_chunk_start_witness :
  let answer := [space; space; ascii_of_nat 9] in
  let chunk_text := lit "Terms and conditions
The bond matures in 2030" in
  forallb isspace answer = true /\
  find_answer_location answer chunk_text = Some 0.
Proof.
  intros answer chunk_text. split; [reflexivity|].
  exact (proj1 (proj2 (proj2
           (blank_answer_located_at_chunk_start answer chunk_text eq_refl)))).
Defined.

(* ================================================================== *)
(** ** Generation failures *)
(* ================================================================== *)

Example strip_fence_json :
  strip_fence (lit "Here you are:
```json
[1, 2]
```
Done.") = Returned (lit "[1, 2]") /\
  strip_fence (lit "```
[]
```") = Returned (lit "[]") /\
  strip_fence (lit "[3]") = Returned (lit "[3]").
Proof. repeat split. Qed.

Section GenerationFacts.

Variable create : Z -> str -> outcome str.
Variable json_loads : str -> outcome Json.t.

Let generate := generate_qa_pairs_with_refs create json_loads.
Let body := generate_body create json_loads.
Let collect_all := collect create json_loads.

Lemma generation_fails_raises (chunk_data : Chunk.t) (num_pairs : Z) :
  generation_fails create json_loads chunk_data num_pairs ->
  exists e, body chunk_data num_pairs = Raised e.
Proof.
  unfold body, generate_body.
  intros [(e & H) | (content & content' & e & Hc & Hs & Hj)].
  - exists e. now rewrite H.
  - exists e. rewrite Hc. cbn [bind]. rewrite Hs. cbn [bind]. now rewrite Hj.
Qed.

(** The handler turns every exception of the [try] block into the empty
    list. *)
Lemma generate_of_raise (chunk_data : Chunk.t) (num_pairs : Z) (e : exn) :
  body chunk_data num_pairs = Raised e ->
  generate chunk_data num_pairs = Returned (JList []).
Proof.
  intros H. unfold generate, generate_qa_pairs_with_refs.
  fold body. now rewrite H.
Qed.

Lemma generate_never_raises (chunk_data : Chunk.t) (num_pairs : Z) (e : exn) :
  generate chunk_data num_pairs <> Raised e.
Proof.
  unfold generate, generate_qa_pairs_with_refs.
  destruct (generate_body create json_loads chunk_data num_pairs); discriminate.
Qed.

(** Skipping a chunk on which generation raised does not change what the
    loop of [main] collects. *)
Lemma collect_skips_failure (num_pairs : Z) (chunk_data : Chunk.t) (e : exn)
  (after : list Chunk.t) :
  body chunk_data num_pairs = Raised e ->
  forall before all_qa_pairs,
  collect_all num_pairs (before ++ chunk_data :: after) all_qa_pairs =
  collect_all num_pairs (before ++ after) all_qa_pairs.
Proof.
  intros H. unfold collect_all.
  induction before as [|b before IH]; intros all_qa_pairs; cbn [app collect].
  - fold generate. rewrite (generate_of_raise _ _ _ H). cbn [bind iter].
    now rewrite app_nil_r.
  - destruct (generate_qa_pairs_with_refs create json_loads b num_pairs) as [qa| |];
      cbn [bind]; try reflexivity.
    destruct (iter qa); cbn [bind]; try reflexivity. apply IH.
Qed.

End GenerationFacts.

(** C9.  When the generation collaborator fails on a chunk (the request
    raises, or its response does not parse as JSON once the fence is
    stripped), [generate_qa_pairs_with_refs] returns the empty list; it
    raises in no case; and the loop over the chunks collects exactly what
    it collects without that chunk. *)
Theorem generation_failure_isolated
  (create : Z -> str -> outcome str) (json_loads : str -> outcome Json.t)
  (chunk_data : Chunk.t) (num_pairs : Z) :
  (forall e, generate_qa_pairs_with_refs create json_loads chunk_data num_pairs <> Raised e) /\
  (generation_fails create json_loads chunk_data num_pairs ->
  generate_qa_pairs_with_refs create json_loads chunk_data num_pairs = Returned (JList []) /\
  forall before after all_qa_pairs,
  collect create json_loads num_pairs (before ++ chunk_data :: after) all_qa_pairs =
  collect create json_loads num_pairs (before ++ after) all_qa_pairs).
Proof.
  split.
  - intros e. apply generate_never_raises.
  - intros H. apply generation_fails_raises in H. destruct H as [e H]. split.
    + eapply generate_of_raise; eassumption.
    + intros before after all_qa_pairs. eapply collect_skips_failure; eassumption.
Qed.

(** C9, with a collaborator that raises on the chunk "bad" and answers a
    fenced block elsewhere, and a parser that knows one document. *)
Lemma generation_failure_isolated_witness :
  let create := fun (_ : Z) (text : str) =>
  if str_eqb text (lit "bad") then Raised APIError
  else Returned (lit "```json
DOC
```") in
  let json_loads := fun (s : str) =>
  if str_eqb s (lit "DOC")
  then Returned (JList [JObj [(lit "question", JStr (lit "q")); (lit "answer", JStr (lit "a"))]])
  else Raised JSONDecodeError in
  let bad := fst (chunk_at (lit "bad") 10 0 None 0 0) in
  let good := fst (chunk_at (lit "a good chunk") 20 0 None 0 0) in
  generation_fails create json_loads bad 5 /\
  generate_qa_pairs_with_refs create json_loads bad 5 = Returned (JList []) /\
  collect create json_loads 5 ([good] ++ bad :: [good]) [] =
  collect create json_loads 5 ([good] ++ [good]) [].
Proof.
  intros create json_loads bad good.
  assert (H : generation_fails create json_loads bad 5)
  by (left; exists APIError; reflexivity).
  split; [exact H|].
  destruct (proj2 (generation_failure_isolated create json_loads bad 5) H) as [Hg Hc].
  split; [exact Hg | exact (Hc [good] [good] [])].
Defined.

(* ================================================================== *)
(** ** Merging the review export *)
(* ================================================================== *)

(** A record whose id is beyond the end of the original pairs adds nothing
    to the merged output. *)
Lemma process_item_beyond_end (original_qa processed_qa : list Json.t) (stats : Stats)
  (item : Item) (i : Z) (state' : list Json.t * Stats) :
  id item = Some i -> len original_qa < i ->
  process_item original_qa (processed_qa, stats) item = Returned state' ->
  fst state' = processed_qa.
Proof.
  intros Hid Hi. unfold process_item. rewrite Hid.
  destruct (is_nil _); [intros H; now injection H as <-|].
  destruct (index _ (-1)) as [annotation| |]; cbn [bind]; try discriminate.
  destruct (extract _ _) as [review_data| |]; cbn [bind]; try discriminate.
  assert (E : (i - 1 <? len original_qa) = false) by (apply Z.ltb_ge; lia).
  rewrite E. intros H. now injection H as <-.
Qed.

(** C3 fails at id 0.  The index [0 - 1 = -1] passes the test
    [qa_id < len(original_qa)] and [original_qa[-1]] is the last pair: the
    record is merged into the output with the last pair's question. *)
Theorem process_export_id_zero_merges_last_pair :
  exists qa stats,
  process_labelstudio_export [sample_item 0] sample_original = Returned ([qa], stats) /\
  get_attr qa (lit "question") JNull = Returned (JStr (lit "Q2")) /\
  get_attr qa (lit "review") JNull
  = Returned (review_to_json {| accuracy := None; relevance := None;
                                quality := Some (lit "Good"); issues := [];
                                notes := None |}).
Proof. eexists _, _. repeat split. Qed.

(** An id far enough below zero makes [original_qa[qa_id]] raise, which
    ends the whole batch; an id beyond the end is skipped. *)
Example process_export_other_ids :
  process_labelstudio_export [sample_item (-5); sample_item 1] sample_original
  = Raised IndexError /\
  (exists stats,
  process_labelstudio_export [sample_item 3] sample_original = Returned ([], stats)).
Proof. split; [reflexivity | eexists; reflexivity]. Qed.

(* ================================================================== *)
(** ** The quality filter *)
(* ================================================================== *)

Lemma filter_qa_by_quality_threshold (processed_qa : list Json.t) (min_quality : str) :
  filter_qa_by_quality processed_qa min_quality =
  filter_loop (threshold min_quality) processed_qa ([], []).
Proof. reflexivity. Qed.

(** The scale of the specification is the table of the code. *)
Lemma levels_lookup_tier (s : str) : levels_lookup quality_levels s = tier s.
Proof.
  unfold tier, quality_levels. cbn [levels_lookup].
  destruct (str_eqb (lit "Excellent") s) eqn:E4.
  - apply str_eqb_eq in E4. subst s. reflexivity.
  - destruct (str_eqb (lit "Good") s) eqn:E3.
    + apply str_eqb_eq in E3. subst s. reflexivity.
    + destruct (str_eqb (lit "Fair") s) eqn:E2.
    * apply str_eqb_eq in E2. subst s. reflexivity.
    * destruct (str_eqb (lit "Poor") s) eqn:E1.
      -- apply str_eqb_eq in E1. subst s. reflexivity.
      -- assert (Hsym : forall k, str_eqb k s = false -> str_eqb s k = false).
         { intros k Hk. apply str_eqb_neq. intros ->. now rewrite str_eqb_refl in Hk. }
         now rewrite !Hsym.
Qed.

Lemma threshold_bounds (min_quality : str) : 1 <= threshold min_quality <= 4.
Proof.
  unfold threshold. rewrite levels_lookup_tier. unfold tier.
  repeat match goal with |- context [if ?b then _ else _] => destruct b end; lia.
Qed.

(** The test of the loop, on the labels of the item. *)
Lemma accepts_dict (min_level : Z) (d r : dict) :
  review_of d = JObj r ->
  accepts min_level (JObj d) =
  bind (levels_get (quality_of r) 0) (fun level =>
  Returned ((min_level <=? level)
            && (eq_str (accuracy_of r) (lit "Accurate")
                || eq_str (accuracy_of r) (lit "Partially Accurate")))).
Proof.
  intros Hr. unfold accepts. cbn [get_attr bind].
  fold (review_of d). rewrite Hr. reflexivity.
Qed.

Lemma levels_get_str (s : str) :
  levels_get (JStr s) 0 = Returned (match tier s with Some n => n | None => 0 end).
Proof. unfold levels_get. now rewrite levels_lookup_tier. Qed.


Lemma eq_str_iff (a : Json.t) (s : str) : eq_str a s = true <-> a = JStr s.
Proof.
  destruct a; cbn [eq_str]; try (split; [discriminate | intros H; discriminate]).
  rewrite str_eqb_eq. split; [now intros -> | intros H; now injection H].
Qed.

Lemma acceptable_iff (a : Json.t) :
  eq_str a (lit "Accurate") || eq_str a (lit "Partially Accurate") = true <-> acceptable a.
Proof. unfold acceptable. now rewrite orb_true_iff, !eq_str_iff. Qed.

(** The loop of the filter sorts each item by its own test. *)
Lemma filter_loop_one (min_level : Z) (qa : Json.t) (ok : bool) :
  accepts min_level qa = Returned ok ->
  filter_loop min_level [qa] ([], []) =
  Returned (if ok then ([qa], []) else ([], [qa])).
Proof.
  intros H. cbn [filter_loop]. rewrite H. cbn [bind]. now destruct ok.
Qed.

Lemma filter_loop_app (min_level : Z) (l : list Json.t) :
  forall filtered_qa rejected_qa,
  (forall qa, In qa l -> exists ok, accepts min_level qa = Returned ok) ->
  filter_loop min_level l (filtered_qa, rejected_qa) =
  Returned
  (filtered_qa ++ filter (fun qa => match accepts min_level qa with
                                      | Returned true => true
                                      | _ => false
                                      end) l,
     rejected_qa ++ filter (fun qa => match accepts min_level qa with
                                      | Returned true => false
                                      | _ => true
                                      end) l).
Proof.
  induction l as [|qa l IH]; intros filtered_qa rejected_qa Hall; cbn [filter_loop filter].
  - now rewrite !app_nil_r.
  - destruct (Hall qa (or_introl eq_refl)) as [ok Hok]. rewrite Hok. cbn [bind].
    destruct ok; rewrite IH by (intros qa' Hin; apply Hall; now right);
    now rewrite <- !app_assoc.
Qed.

Lemma accepts_labels (min_level : Z) (d r : dict) (q : str) :
  review_of d = JObj r -> quality_of r = JStr q ->
  accepts min_level (JObj d) =
  Returned ((min_level <=? match tier q with Some n => n | None => 0 end)
          && (eq_str (accuracy_of r) (lit "Accurate")
              || eq_str (accuracy_of r) (lit "Partially Accurate"))).
Proof.
  intros Hr Hq. rewrite (accepts_dict min_level d r Hr), Hq, levels_get_str. reflexivity.
Qed.

Lemma inaccurate_rejected (q : string) (min_quality : str) :
  filter_qa_by_quality [reviewed q "Inaccurate"] min_quality
  = Returned ([], [reviewed q "Inaccurate"]).
Proof.
  rewrite filter_qa_by_quality_threshold.
  apply (filter_loop_one _ _ false).
  unfold reviewed. erewrite accepts_labels; [|reflexivity|reflexivity].
  cbn [accuracy_of get lookup str_eqb lit list_ascii_of_string eq_str Ascii.eqb
     Bool.eqb andb orb].
  now rewrite andb_false_r.
Qed.

Lemma threshold_tier (min_quality : str) :
  In min_quality [lit "Excellent"; lit "Good"; lit "Fair"] ->
  tier min_quality = Some (threshold min_quality).
Proof. intros [<- | [<- | [<- | []]]]; reflexivity. Qed.

(** On an item it can read, the test of the loop is the gate of the
    specification. *)
Lemma accepts_gate (min_quality : str) (qa : Json.t) :
  In min_quality [lit "Excellent"; lit "Good"; lit "Fair"] ->
  filterable qa ->
  accepts (threshold min_quality) qa = Returned (gate min_quality qa).
Proof.
  intros Hin (d & r & -> & Hr & Hh).
  rewrite (accepts_dict _ d r Hr). unfold gate. rewrite Hr, (threshold_tier _ Hin).
  pose proof (threshold_bounds min_quality) as Hb.
  assert (E : (threshold min_quality <=? 0) = false) by (apply Z.leb_gt; lia).
  destruct (quality_of r) as [| b | z | s | l | kv]; cbn [hashable] in Hh;
    try discriminate; cbn [label_tier].
  - cbn [levels_get bind]. now rewrite E.
  - cbn [levels_get bind]. now rewrite E.
  - cbn [levels_get bind]. now rewrite E.
  - rewrite levels_get_str. cbn [bind]. destruct (tier s); [reflexivity | now rewrite E].
Qed.

(** The gate, in the words of the specification. *)
Lemma gate_iff (min_quality : str) (d r : dict) :
  review_of d = JObj r ->
  gate min_quality (JObj d) = true <->
  (exists n m,
     label_tier (quality_of r) = Some n /\ tier min_quality = Some m /\ m <= n) /\
  acceptable (accuracy_of r).
Proof.
  intros Hr. unfold gate. rewrite Hr.
  destruct (label_tier (quality_of r)) as [n|], (tier min_quality) as [m|].
  - rewrite andb_true_iff, Z.leb_le, acceptable_iff. split.
    + intros [Hle Ha]. split; [now exists n, m | assumption].
    + intros [(n' & m' & Hn & Hm & Hle) Ha]. injection Hn as <-. injection Hm as <-.
      now split.
  - split; [discriminate | intros [(n' & m' & _ & Hm & _) _]; discriminate].
  - split; [discriminate | intros [(n' & m' & Hn & _ & _) _]; discriminate].
  - split; [discriminate | intros [(n' & m' & Hn & _ & _) _]; discriminate].
Qed.

(** C8.  For a threshold among Excellent, Good and Fair and any list of
    reviewed items (dictionaries whose quality label is a string, a
    number, a boolean or [None]), the filter returns, and an item of the
    list is accepted exactly when its quality label has a tier on the scale
    Poor < Fair < Good < Excellent that is at least the tier of the
    threshold and its accuracy label is "Accurate" or "Partially
    Accurate"; every other item of the list is rejected, and both lists
    keep the order of the input.  (Good, Accurate) passes the threshold
    Good, (Fair, Accurate) does not, and (Excellent, Inaccurate) is
    rejected at every threshold. *)
Theorem quality_gate (processed_qa : list Json.t) (min_quality : str) :
  In min_quality [lit "Excellent"; lit "Good"; lit "Fair"] ->
  (forall qa, In qa processed_qa -> filterable qa) ->
  (exists filtered_qa rejected_qa,
     filter_qa_by_quality processed_qa min_quality = Returned (filtered_qa, rejected_qa) /\
     filtered_qa = filter (gate min_quality) processed_qa /\
     rejected_qa = filter (fun qa => negb (gate min_quality qa)) processed_qa /\
     forall qa d r,
       In qa processed_qa -> qa = JObj d -> review_of d = JObj r ->
       (In qa filtered_qa <->
        (exists n m,
           label_tier (quality_of r) = Some n /\ tier min_quality = Some m /\ m <= n) /\
        acceptable (accuracy_of r)) /\
       (In qa rejected_qa <->
        ~ ((exists n m,
              label_tier (quality_of r) = Some n /\ tier min_quality = Some m /\ m <= n) /\
           acceptable (accuracy_of r)))) /\
  filter_qa_by_quality [reviewed "Good" "Accurate"] (lit "Good")
  = Returned ([reviewed "Good" "Accurate"], []) /\
  filter_qa_by_quality [reviewed "Fair" "Accurate"] (lit "Good")
  = Returned ([], [reviewed "Fair" "Accurate"]) /\
  (forall t, filter_qa_by_quality [reviewed "Excellent" "Inaccurate"] t
             = Returned ([], [reviewed "Excellent" "Inaccurate"])).
Proof.
  intros Hin Hall. split; [|split; [reflexivity | split; [reflexivity|]]].
  - exists (filter (gate min_quality) processed_qa),
           (filter (fun qa => negb (gate min_quality qa)) processed_qa).
    split; [|split; [reflexivity | split; [reflexivity|]]].
    + rewrite filter_qa_by_quality_threshold.
      rewrite filter_loop_app
        by (intros qa Hqa; exists (gate min_quality qa); apply accepts_gate; auto).
      cbn [app]. f_equal. f_equal.
      * apply filter_ext_in. intros qa Hqa.
        rewrite (accepts_gate _ _ Hin (Hall qa Hqa)). now destruct (gate min_quality qa).
      * apply filter_ext_in. intros qa Hqa.
        rewrite (accepts_gate _ _ Hin (Hall qa Hqa)). now destruct (gate min_quality qa).
    + intros qa d r Hqa -> Hr. rewrite !filter_In.
      pose proof (gate_iff min_quality d r Hr) as Hg. split.
      * rewrite <- Hg. tauto.
      * rewrite negb_true_iff. split.
        -- intros [_ Hfalse] Hp. apply Hg in Hp. congruence.
        -- intros Hn. split; [assumption|].
           destruct (gate min_quality (JObj d)) eqn:E; [|reflexivity].
           exfalso. apply Hn. now apply Hg.
  - intros t. apply inaccurate_rejected.
Qed.

(** C8, at the threshold Good on three items: one rated Good and
    Accurate, one rated Fair, and one whose reviewer set no label. *)
Lemma quality_gate_witness :
  let unlabelled := JObj [ (lit "review", review_to_json empty_review) ] in
  let processed_qa :=
    [ reviewed "Good" "Accurate"; reviewed "Fair" "Accurate"; unlabelled ] in
  (forall qa, In qa processed_qa -> filterable qa) /\
  exists filtered_qa rejected_qa,
    filter_qa_by_quality processed_qa (lit "Good") = Returned (filtered_qa, rejected_qa) /\
    filtered_qa = [ reviewed "Good" "Accurate" ] /\
    rejected_qa = [ reviewed "Fair" "Accurate"; unlabelled ].
Proof.
  intros unlabelled processed_qa.
  assert (Hall : forall qa, In qa processed_qa -> filterable qa).
  { intros qa [<- | [<- | [<- | []]]]; eexists; eexists;
      (split; [reflexivity|]); split; reflexivity. }
  split; [exact Hall|].
  destruct (proj1 (quality_gate processed_qa (lit "Good")
                     (or_intror (or_introl eq_refl)) Hall))
    as (filtered_qa & rejected_qa & Hf & Hfe & Hre & _).
  exists filtered_qa, rejected_qa. split; [exact Hf|].
  split; [rewrite Hfe | rewrite Hre]; reflexivity.
Defined.







(* ================================================================== *)
(** ** More on the chunker: identifiers, coverage, sizes, lines *)
(* ================================================================== *)

Lemma len_app {A : Type} (l l' : list A) : len (l ++ l') = len l + len l'.
Proof. unfold len. rewrite length_app. lia. Qed.

Lemma len_slice {A : Type} (s : list A) (a b : Z) :
  0 <= a <= b -> b <= len s -> len (slice s a b) = b - a.
Proof.
  intros Hab Hb. rewrite slice_in_range by assumption.
  unfold len in *. rewrite length_firstn, length_skipn. lia.
Qed.

Lemma firstn_add {A : Type} (n m : nat) :
  forall l : list A, firstn (n + m) l = firstn n l ++ firstn m (skipn n l).
Proof.
  induction n as [|n IH]; intros l; [reflexivity|].
  destruct l as [|a l]; cbn [Nat.add firstn skipn app].
  - now rewrite firstn_nil.
  - now rewrite IH.
Qed.

(** Splitting a prefix at [a]: [s[0:b] = s[0:a] + s[a:b]]. *)
Lemma slice_split {A : Type} (s : list A) (a b : Z) :
  0 <= a <= b -> b <= len s -> slice s 0 b = slice s 0 a ++ slice s a b.
Proof.
  intros Hab Hb. rewrite !slice_in_range by lia.
  rewrite !Z.sub_0_r. cbn [Z.to_nat skipn].
  replace (Z.to_nat b) with (Z.to_nat a + Z.to_nat (b - a))%nat by lia.
  apply firstn_add.
Qed.

Lemma count_app (c : ascii) (s s' : str) : count c (s ++ s') = count c s + count c s'.
Proof. unfold count. rewrite count_occ_app. lia. Qed.

Lemma count_replace_newline (s : str) : count newline (replace newline space s) = 0.
Proof.
  unfold count, replace. induction s as [|c s IH]; [reflexivity|].
  cbn [map]. destruct (Ascii.eqb c newline) eqn:E.
  - rewrite count_occ_cons_neq by discriminate. exact IH.
  - rewrite count_occ_cons_neq; [exact IH|].
    intros H. apply Ascii.eqb_neq in E. congruence.
Qed.

Lemma len_replace (a b : ascii) (s : str) : len (replace a b s) = len s.
Proof. unfold len, replace. now rewrite length_map. Qed.

Lemma len_slice_prefix {A : Type} (s : list A) (n : nat) :
  len (slice s 0 (Z.of_nat n)) = Z.min (Z.of_nat n) (len s).
Proof. rewrite slice_prefix. unfold len. rewrite length_firstn. lia. Qed.

Section ChunkerMore.

Variable text : str.
Variables chunk_size overlap : Z.
Variable source_document : option str.

#[warnings="-notation-for-abbreviation"] Local Notation body := (chunk_at text chunk_size overlap source_document).
#[warnings="-notation-for-abbreviation"] Local Notation Chain := (Chain text chunk_size overlap source_document).

Lemma body_id (start chunk_id : Z) : Chunk.id (fst (body start chunk_id)) = chunk_id.
Proof. reflexivity. Qed.

Lemma body_preview (start chunk_id : Z) :
  Chunk.preview (fst (body start chunk_id)) =
  replace newline space (slice (Chunk.text (fst (body start chunk_id))) 0 100) ++ lit "...".
Proof. reflexivity. Qed.

Lemma body_source_document (start chunk_id : Z) :
  Chunk.source_document (fst (body start chunk_id)) =
  match source_document with
  | Some (c :: s) => Some (c :: s)
  | _ => None
  end.
Proof. reflexivity. Qed.

(** Every chunk of a run was built by the loop body, whatever the
    configuration. *)
Lemma Chain_built (start chunk_id : Z) (l : list Chunk.t) :
  Chain start chunk_id l ->
  Forall (fun c => exists s i, c = fst (body s i)) l.
Proof.
  induction 1 as [|start chunk_id l Hlt _ IH]; constructor; [|assumption].
  now exists start, chunk_id.
Qed.

(** When a run goes on after the chunk at [start], that chunk was full and
    stopped short of the end of the text. *)
Lemma Chain_goes_on (start chunk_id : Z) (c : Chunk.t) (l : list Chunk.t) :
  Chain (snd (body start chunk_id)) (chunk_id + 1) (c :: l) ->
  snd (body start chunk_id) = start + chunk_size - overlap /\
  start + chunk_size < len text.
Proof.
  intros H. apply Chain_head in H. destruct H as [Hnext _].
  rewrite body_next in Hnext |- *.
  destruct (Z.min (start + chunk_size) (len text) <? len text) eqn:E.
  - apply Z.ltb_lt in E. lia.
  - apply Z.ltb_ge in E. lia.
Qed.

Lemma Chain_nth (start chunk_id : Z) (l : list Chunk.t) :
  Chain start chunk_id l ->
  forall k c,
    nth_error l k = Some c ->
    Chunk.id c = chunk_id + Z.of_nat k /\
    Chunk.char_start c = start + Z.of_nat k * (chunk_size - overlap).
Proof.
  induction 1 as [|start chunk_id l Hlt Hchain IH]; intros k c Hk.
  - destruct k; discriminate.
  - destruct k as [|k]; cbn [nth_error] in Hk.
    + assert (Hc : c = fst (body start chunk_id)) by congruence.
      rewrite Hc, body_id, body_char_start. lia.
    + destruct l as [|d l]; [destruct k; discriminate|].
      destruct (Chain_goes_on _ _ _ _ Hchain) as [Hnext _].
      destruct (IH k c Hk) as [Hid Hstart]. rewrite Hnext in Hstart. lia.
Qed.

(** A chunk that has a successor ends before the end of the text. *)
Lemma Chain_not_last (start chunk_id : Z) (l : list Chunk.t) :
  Chain start chunk_id l ->
  forall k c c',
    nth_error l k = Some c -> nth_error l (S k) = Some c' ->
    Chunk.char_end c < len text.
Proof.
  induction 1 as [|start chunk_id l Hlt Hchain IH]; intros k c c' Hk Hk'.
  - destruct k; discriminate.
  - destruct k as [|k]; cbn [nth_error] in Hk, Hk'.
    + assert (Hc : c = fst (body start chunk_id)) by congruence.
      destruct l as [|d l]; [discriminate|].
      destruct (Chain_goes_on _ _ _ _ Hchain) as [_ Hlt'].
      rewrite Hc, body_char_end. lia.
    + eauto.
Qed.

Section ValidMore.

Hypothesis size_pos : 0 < chunk_size.
Hypothesis overlap_ok : 0 <= overlap < chunk_size.

(** The chunks of a run leave no gap: every position from the cursor on
    lies in one of them. *)
Lemma Chain_covers (start chunk_id : Z) (l : list Chunk.t) :
  Chain start chunk_id l -> 0 <= start ->
  forall p, start <= p < len text ->
    exists c, In c l /\ Chunk.char_start c <= p < Chunk.char_end c.
Proof.
  induction 1 as [|start chunk_id l Hlt Hchain IH]; intros Hs p Hp.
  - lia.
  - destruct (Z.lt_ge_cases p (Z.min (start + chunk_size) (len text))) as [Hin | Hout].
    + exists (fst (body start chunk_id)). split; [now left|].
      rewrite body_char_start, body_char_end. lia.
    + assert (Hnext : snd (body start chunk_id)
                      = Z.min (start + chunk_size) (len text) - overlap).
      { rewrite body_next.
        destruct (Z.min (start + chunk_size) (len text) <? len text) eqn:E;
          [reflexivity | apply Z.ltb_ge in E; lia]. }
      destruct (IH ltac:(lia) p ltac:(lia)) as (c & Hc & Hcov).
      exists c. split; [now right | assumption].
Qed.

End ValidMore.

End ChunkerMore.

(** The end of a chunk, from its start. *)
Lemma chunk_end_formula (text : str) (chunk_size overlap : Z)
  (source_document : option str) (start chunk_id : Z) (l : list Chunk.t) (c : Chunk.t) :
  Chain text chunk_size overlap source_document start chunk_id l -> In c l ->
  Chunk.char_end c = Z.min (Chunk.char_start c + chunk_size) (len text) /\
  Chunk.text c = slice text (Chunk.char_start c) (Chunk.char_end c).
Proof.
  intros H Hin. apply Chain_built in H. rewrite Forall_forall in H.
  destruct (H c Hin) as (s & i & ->).
  now rewrite body_char_start, body_char_end, body_text.
Qed.

(** X1.  The chunks are numbered from 0 in the order they are emitted, and
    chunk [k] starts at character [k * (chunk_size - overlap)]. *)
Theorem chunk_ids_and_starts (text : str) (chunk_size overlap : Z)
  (source_document : option str) (fuel : nat) (l : list Chunk.t) :
  chunk_text_with_positions fuel text chunk_size overlap source_document = Returned l ->
  forall k c,
    nth_error l k = Some c ->
    Chunk.id c = Z.of_nat k /\
    Chunk.char_start c = Z.of_nat k * (chunk_size - overlap).
Proof.
  intros H k c Hk. unfold chunk_text_with_positions in H.
  apply chunk_loop_Chain in H.
  destruct (Chain_nth _ _ _ _ _ _ _ H k c Hk) as [Hid Hs]. lia.
Qed.

(** X1, on ten characters cut into windows of four that overlap by one:
    three chunks, starting at 0, 3 and 6. *)
Lemma chunk_ids_and_starts_witness :
  let text := lit "abcdefghij" in
  exists l,
    chunk_text_with_positions 10 text 4 1 None = Returned l /\
    map Chunk.id l = [0; 1; 2] /\
    forall k c,
      nth_error l k = Some c ->
      Chunk.id c = Z.of_nat k /\ Chunk.char_start c = Z.of_nat k * (4 - 1).
Proof.
  intros text. eexists. split; [reflexivity|]. split; [reflexivity|].
  apply (chunk_ids_and_starts text 4 1 None 10%nat _ eq_refl).
Defined.

(** X2.  With [chunk_size > 0] and [0 <= overlap < chunk_size] the chunks
    cover the document: every character position lies in the range of at
    least one chunk. *)
Theorem chunks_cover_text (text : str) (chunk_size overlap : Z)
  (source_document : option str) (fuel : nat) (l : list Chunk.t) :
  0 < chunk_size -> 0 <= overlap < chunk_size ->
  chunk_text_with_positions fuel text chunk_size overlap source_document = Returned l ->
  forall p, 0 <= p < len text ->
    exists c, In c l /\ Chunk.char_start c <= p < Chunk.char_end c.
Proof.
  intros Hsize Hov H p Hp. unfold chunk_text_with_positions in H.
  apply chunk_loop_Chain in H.
  apply (Chain_covers text chunk_size overlap source_document Hov 0 0 l H); lia.
Qed.

(** X2, on ten characters cut into windows of four that overlap by one. *)
Lemma chunks_cover_text_witness :
  let text := lit "abcdefghij" in
  exists l,
    chunk_text_with_positions 10 text 4 1 None = Returned l /\
    forall p, 0 <= p < len text ->
      exists c, In c l /\ Chunk.char_start c <= p < Chunk.char_end c.
Proof.
  intros text. eexists. split; [reflexivity|].
  apply (chunks_cover_text text 4 1 None 10%nat _ ltac:(lia) ltac:(lia) eq_refl).
Defined.

(** X3.  With a valid configuration every chunk holds exactly
    [char_end - char_start] characters, at least one and at most
    [chunk_size]. *)
Theorem chunk_text_length (text : str) (chunk_size overlap : Z)
  (source_document : option str) (fuel : nat) (l : list Chunk.t) :
  0 < chunk_size -> 0 <= overlap < chunk_size ->
  chunk_text_with_positions fuel text chunk_size overlap source_document = Returned l ->
  forall c, In c l ->
    len (Chunk.text c) = Chunk.char_end c - Chunk.char_start c /\
    0 < len (Chunk.text c) <= chunk_size.
Proof.
  intros Hsize Hov H c Hin. unfold chunk_text_with_positions in H.
  apply chunk_loop_Chain in H.
  pose proof (Chain_Forall text chunk_size overlap source_document Hsize Hov 0 0 l H
                (Z.le_refl 0)) as HF.
  rewrite Forall_forall in HF. destruct (HF c Hin) as (s & i & Hs & ->).
  rewrite body_text, body_char_start, body_char_end.
  rewrite len_slice by lia. lia.
Qed.

(** X3, on ten characters cut into windows of four that overlap by one. *)
Lemma chunk_text_length_witness :
  let text := lit "abcdefghij" in
  exists l,
    chunk_text_with_positions 10 text 4 1 None = Returned l /\
    map (fun c => len (Chunk.text c)) l = [4; 4; 4] /\
    forall c, In c l ->
      len (Chunk.text c) = Chunk.char_end c - Chunk.char_start c /\
      0 < len (Chunk.text c) <= 4.
Proof.
  intros text. eexists. split; [reflexivity|]. split; [reflexivity|].
  apply (chunk_text_length text 4 1 None 10%nat _ ltac:(lia) ltac:(lia) eq_refl).
Defined.

(** X4.  The preview of a chunk never contains a newline, and holds the
    first 100 characters of the chunk (all of them when there are fewer)
    followed by three dots, whether or not anything was cut. *)
Theorem chunk_preview_shape (text : str) (chunk_size overlap : Z)
  (source_document : option str) (fuel : nat) (l : list Chunk.t) :
  chunk_text_with_positions fuel text chunk_size overlap source_document = Returned l ->
  forall c, In c l ->
    count newline (Chunk.preview c) = 0 /\
    len (Chunk.preview c) = Z.min 100 (len (Chunk.text c)) + 3 /\
    exists head,
      Chunk.preview c = head ++ lit "..." /\
      len head = Z.min 100 (len (Chunk.text c)) /\
      forall n x, nth_error head n = Some x ->
        nth_error (Chunk.text c) n = Some x \/
        (nth_error (Chunk.text c) n = Some newline /\ x = space).
Proof.
  intros H c Hin. unfold chunk_text_with_positions in H.
  apply chunk_loop_Chain, Chain_built in H. rewrite Forall_forall in H.
  destruct (H c Hin) as (s & i & ->). rewrite body_preview.
  set (t := Chunk.text (fst (chunk_at text chunk_size overlap source_document s i))).
  assert (Hlen : len (replace newline space (slice t 0 100)) = Z.min 100 (len t)).
  { rewrite len_replace. change 100 with (Z.of_nat 100). apply len_slice_prefix. }
  split; [|split].
  - rewrite count_app, count_replace_newline. reflexivity.
  - rewrite len_app, Hlen. reflexivity.
  - exists (replace newline space (slice t 0 100)). split; [reflexivity|].
    split; [exact Hlen|].
    intros n x Hn. change 100 with (Z.of_nat 100) in Hn.
    rewrite slice_prefix in Hn. unfold replace in Hn.
    rewrite nth_error_map in Hn.
    destruct (nth_error (firstn 100 t) n) as [y|] eqn:E; [|discriminate].
    cbn [option_map] in Hn.
    assert (Ht : nth_error t n = Some y).
    { destruct (Nat.lt_ge_cases n 100) as [Hlt | Hge].
      - now rewrite nth_error_firstn, (proj2 (Nat.ltb_lt n 100) Hlt) in E.
      - rewrite nth_error_firstn in E.
        rewrite (proj2 (Nat.ltb_ge n 100) Hge) in E. discriminate. }
    destruct (Ascii.eqb y newline) eqn:Ey.
    + apply Ascii.eqb_eq in Ey. subst y. right. split; [assumption | congruence].
    + left. congruence.
Qed.

(** X4, on a chunk of two lines. *)
Lemma chunk_preview_shape_witness :
  let text := lit "ab
cd" in
  exists l c,
    chunk_text_with_positions 10 text 8 1 None = Returned l /\
    In c l /\
    Chunk.preview c = lit "ab cd..." /\
    count newline (Chunk.preview c) = 0 /\
    len (Chunk.preview c) = Z.min 100 (len (Chunk.text c)) + 3.
Proof.
  intros text. eexists. eexists. split; [reflexivity|].
  split; [left; reflexivity|]. split; [reflexivity|].
  pose proof (chunk_preview_shape text 8 1 None 10%nat _ eq_refl _ (or_introl eq_refl))
    as (H1 & H2 & _).
  exact (conj H1 H2).
Defined.

Lemma count_prefix_mono (s : str) (a b : Z) :
  0 <= a <= b -> b <= len s ->
  count newline (slice s 0 a) <= count newline (slice s 0 b).
Proof.
  intros Hab Hb. rewrite (slice_split s a b) by lia. rewrite count_app.
  pose proof (count_nonneg newline (slice s a b)). lia.
Qed.

(** X5.  With a valid configuration, [line_end] of a chunk is one more
    than the newlines of [text[0:char_end]]; along the chunks the line
    numbers do not go back, and a chunk starts no later than the line its
    predecessor ends on; the last chunk ends on line
    [1 + text.count(newline)]. *)
Theorem chunk_line_numbers (text : str) (chunk_size overlap : Z)
  (source_document : option str) (fuel : nat) (l : list Chunk.t) :
  0 < chunk_size -> 0 <= overlap < chunk_size ->
  chunk_text_with_positions fuel text chunk_size overlap source_document = Returned l ->
  (forall c, In c l ->
     Chunk.line_end c = 1 + count newline (slice text 0 (Chunk.char_end c)) /\
     Chunk.line_start c <= Chunk.line_end c) /\
  (forall k c c',
     nth_error l k = Some c -> nth_error l (S k) = Some c' ->
     Chunk.line_start c <= Chunk.line_start c' <= Chunk.line_end c) /\
  (forall l' c, l = l' ++ [c] -> Chunk.line_end c = 1 + count newline text).
Proof.
  intros Hsize Hov H. unfold chunk_text_with_positions in H.
  apply chunk_loop_Chain in H.
  pose proof (Chain_Forall text chunk_size overlap source_document Hsize Hov 0 0 l H
                (Z.le_refl 0)) as HF.
  rewrite Forall_forall in HF.
  assert (Hend : forall c, In c l ->
            0 <= Chunk.char_start c < Chunk.char_end c /\
            Chunk.char_end c <= len text /\
            Chunk.line_start c = 1 + count newline (slice text 0 (Chunk.char_start c)) /\
            Chunk.line_end c = 1 + count newline (slice text 0 (Chunk.char_end c))).
  { intros c Hin. destruct (HF c Hin) as (s & i & Hs & ->).
    rewrite body_line_end, body_line_start, body_text, body_char_start, body_char_end.
    rewrite (slice_split text s (Z.min (s + chunk_size) (len text))) by lia.
    rewrite count_app. repeat split; lia. }
  split; [|split].
  - intros c Hin. destruct (Hend c Hin) as (Hs & He & Hls & Hle).
    split; [assumption|]. rewrite Hls, Hle.
    pose proof (count_prefix_mono text (Chunk.char_start c) (Chunk.char_end c)). lia.
  - intros k c c' Hk Hk'.
    destruct (Chain_adjacent _ _ _ _ _ _ _ H k c c' Hk Hk') as [Hfull Hnext].
    destruct (Hend c (nth_error_In _ _ Hk)) as (Hs & He & Hls & Hle).
    destruct (Hend c' (nth_error_In _ _ Hk')) as (Hs' & He' & Hls' & _).
    rewrite Hls, Hls', Hle.
    pose proof (count_prefix_mono text (Chunk.char_start c) (Chunk.char_start c')).
    pose proof (count_prefix_mono text (Chunk.char_start c') (Chunk.char_end c)).
    lia.
  - intros l' c Hl.
    assert (Hin : In c l) by (rewrite Hl; apply in_or_app; right; now left).
    destruct (Hend c Hin) as (_ & _ & _ & Hle).
    rewrite Hle.
    rewrite (Chain_last text chunk_size overlap source_document Hsize Hov 0 0 l H
               (Z.le_refl 0) l' c Hl).
    now rewrite slice_all.
Qed.

(** X5, on three lines cut into windows of four that overlap by one. *)
Lemma chunk_line_numbers_witness :
  let text := lit "ab
cd
ef" in
  exists l,
    chunk_text_with_positions 10 text 4 1 None = Returned l /\
    map (fun c => (Chunk.line_start c, Chunk.line_end c)) l = [(1, 2); (2, 3); (3, 3)] /\
    forall l' c, l = l' ++ [c] -> Chunk.line_end c = 1 + count newline text.
Proof.
  intros text. eexists. split; [reflexivity|]. split; [reflexivity|].
  exact (proj2 (proj2 (chunk_line_numbers text 4 1 None 10%nat _
                         ltac:(lia) ltac:(lia) eq_refl))).
Defined.

Lemma ceil_div_unique (a b q : Z) :
  0 < b -> (q - 1) * b < a <= q * b -> (a + b - 1) / b = q.
Proof.
  intros Hb Ha. symmetry.
  apply (Z.div_unique_pos (a + b - 1) b q (a + b - 1 - b * q)); lia.
Qed.

(** X6.  With a valid configuration a non-empty text of [n] characters
    gives one chunk when [n <= chunk_size] and otherwise
    [1 + ceil((n - chunk_size) / (chunk_size - overlap))] chunks. *)
Theorem chunk_count (text : str) (chunk_size overlap : Z)
  (source_document : option str) (fuel : nat) (l : list Chunk.t) :
  0 < chunk_size -> 0 <= overlap < chunk_size -> text <> [] ->
  chunk_text_with_positions fuel text chunk_size overlap source_document = Returned l ->
  len l =
  if len text <=? chunk_size then 1
  else 1 + (len text - chunk_size + (chunk_size - overlap) - 1) / (chunk_size - overlap).
Proof.
  intros Hsize Hov Hne H. unfold chunk_text_with_positions in H.
  apply chunk_loop_Chain in H.
  assert (Hpos : 0 < len text).
  { pose proof (len_nonneg text). pose proof (len_nil_iff text).
    destruct (Z.eq_dec (len text) 0); [tauto | lia]. }
  destruct (len text <=? chunk_size) eqn:E.
  - apply Z.leb_le in E.
    destruct (Chain_single text chunk_size overlap source_document 0 l) as (-> & _);
      [lia | assumption | reflexivity].
  - apply Z.leb_gt in E.
    assert (Hl : l <> []) by (intros ->; inversion H; lia).
    destruct (exists_last Hl) as (l' & c & ->).
    assert (Hk : nth_error (l' ++ [c]) (length l') = Some c)
      by (rewrite nth_error_app2, Nat.sub_diag by lia; reflexivity).
    destruct (Chain_nth _ _ _ _ _ _ _ H _ _ Hk) as [_ Hs].
    destruct (chunk_end_formula _ _ _ _ _ _ _ c H (nth_error_In _ _ Hk)) as [He _].
    rewrite (Chain_last text chunk_size overlap source_document Hsize Hov 0 0 _ H
               (Z.le_refl 0) l' c eq_refl) in He.
    destruct l' as [|d0 l0] using rev_ind.
    + cbn [length] in Hs. lia.
    + clear IHl0.
      assert (Hk' : nth_error ((l0 ++ [d0]) ++ [c]) (length l0) = Some d0).
      { rewrite <- app_assoc. rewrite nth_error_app2, Nat.sub_diag by lia. reflexivity. }
      assert (Hk'' : nth_error ((l0 ++ [d0]) ++ [c]) (S (length l0)) = Some c).
      { rewrite length_app in Hk. cbn [length] in Hk.
        replace (S (length l0)) with (length l0 + 1)%nat by lia. exact Hk. }
      destruct (Chain_nth _ _ _ _ _ _ _ H _ _ Hk') as [_ Hs'].
      destruct (chunk_end_formula _ _ _ _ _ _ _ d0 H (nth_error_In _ _ Hk')) as [He' _].
      pose proof (Chain_not_last _ _ _ _ _ _ _ H _ _ _ Hk' Hk'') as Hlt.
      rewrite length_app in Hs. cbn [length] in Hs.
      rewrite (ceil_div_unique _ _ (Z.of_nat (length l0) + 1)) by lia.
      rewrite !len_app. unfold len. cbn [length]. lia.
Qed.

(** X6, on ten characters cut into windows of four that overlap by one:
    [1 + ceil(6 / 3) = 3] chunks. *)
Lemma chunk_count_witness :
  let text := lit "abcdefghij" in
  exists l,
    chunk_text_with_positions 10 text 4 1 None = Returned l /\
    len l = 3 /\
    len l = (if len text <=? 4 then 1 else 1 + (len text - 4 + (4 - 1) - 1) / (4 - 1)).
Proof.
  intros text. eexists. split; [reflexivity|]. split; [reflexivity|].
  apply (chunk_count text 4 1 None 10%nat _ ltac:(lia) ltac:(lia));
    [discriminate | reflexivity].
Defined.

(** X7.  When the overlap is not smaller than a positive window and the
    text is longer than the window, the cursor never advances: the loop
    does not end, so the call returns no list and raises nothing, whatever
    the fuel. *)
Theorem overlap_not_smaller_never_returns (text : str) (chunk_size overlap : Z)
  (source_document : option str) :
  0 < chunk_size <= overlap -> chunk_size < len text ->
  forall fuel,
    chunk_text_with_positions fuel text chunk_size overlap source_document = OutOfFuel /\
    (forall l,
       chunk_text_with_positions fuel text chunk_size overlap source_document
       <> Returned l).
Proof.
  intros Hcfg Hlen fuel.
  assert (H : chunk_text_with_positions fuel text chunk_size overlap source_document
              = OutOfFuel).
  { unfold chunk_text_with_positions.
    apply chunk_loop_stuck; [assumption | assumption | lia]. }
  split; [exact H | intros l; rewrite H; discriminate].
Qed.

(** X7, on a window of 200 with the default overlap of 200. *)
Lemma overlap_not_smaller_never_returns_witness :
  chunk_text_with_positions 50 (repeat space 300) 200 200 None = OutOfFuel.
Proof.
  exact (proj1 (overlap_not_smaller_never_returns (repeat space 300) 200 200 None
                  ltac:(lia) eq_refl 50%nat)).
Defined.

(* ================================================================== *)
(** ** More on the answer locator *)
(* ================================================================== *)

Lemma find_nonneg_or_absent (s sub : str) :
  find s sub = -1 \/ exists p, find s sub = Z.of_nat p /\ first_occurrence sub s p.
Proof.
  unfold find. destruct (find_from_spec sub s 0) as [[Hf _] | (p & Hf & Hp)].
  - now left.
  - right. exists p. split; [lia | assumption].
Qed.

(** What a returned line is: the newlines before the first occurrence. *)
Lemma locate_some (answer chunk_text : str) (n : Z) :
  find_answer_location answer chunk_text = Some n ->
  exists p,
    first_occurrence (probe answer) (lower chunk_text) p /\
    n = count newline (firstn p chunk_text).
Proof.
  rewrite find_answer_location_probe. cbv zeta.
  destruct (find_nonneg_or_absent (lower chunk_text) (probe answer))
    as [Hf | (p & Hf & Hp)]; rewrite Hf.
  - discriminate.
  - destruct (Z.of_nat p =? -1) eqn:E; [apply Z.eqb_eq in E; lia|].
    cbn [negb]. rewrite slice_prefix. intros H. injection H as <-. now exists p.
Qed.

Lemma count_firstn_le (c : ascii) (n : nat) (s : str) :
  count c (firstn n s) <= count c s.
Proof.
  rewrite <- (firstn_skipn n s) at 2. rewrite count_app.
  pose proof (count_nonneg c (skipn n s)). lia.
Qed.

(** X8.  A line returned by the locator for a chunk of the chunker is
    between 0 and the number of newlines of the chunk, so that
    [line_start + line] (the [answer_line_in_doc] the caller stores) lies
    between the chunk's [line_start] and [line_end]. *)
Theorem answer_line_within_chunk (text : str) (chunk_size overlap : Z)
  (source_document : option str) (fuel : nat) (l : list Chunk.t) :
  chunk_text_with_positions fuel text chunk_size overlap source_document = Returned l ->
  forall c answer n,
    In c l ->
    find_answer_location answer (Chunk.text c) = Some n ->
    0 <= n <= count newline (Chunk.text c) /\
    Chunk.line_start c <= Chunk.line_start c + n <= Chunk.line_end c.
Proof.
  intros H c answer n Hin Hn. unfold chunk_text_with_positions in H.
  apply chunk_loop_Chain, Chain_built in H. rewrite Forall_forall in H.
  destruct (H c Hin) as (s & i & Hc).
  assert (Hle : Chunk.line_end c = Chunk.line_start c + count newline (Chunk.text c)).
  { rewrite Hc, body_line_end, body_line_start. lia. }
  destruct (locate_some _ _ _ Hn) as (p & _ & ->).
  pose proof (count_nonneg newline (firstn p (Chunk.text c))).
  pose proof (count_firstn_le newline p (Chunk.text c)). lia.
Qed.

(** X8, on a chunk of two lines whose second line holds the answer. *)
Lemma answer_line_within_chunk_witness :
  let text := lit "Terms and conditions
The bond matures in 2030" in
  exists l c,
    chunk_text_with_positions 5 text 100 10 None = Returned l /\
    In c l /\
    find_answer_location (lit "the bond matures") (Chunk.text c) = Some 1 /\
    Chunk.line_start c <= Chunk.line_start c + 1 <= Chunk.line_end c.
Proof.
  intros text. eexists. eexists. split; [reflexivity|].
  split; [left; reflexivity|]. split; [reflexivity|].
  exact (proj2 (answer_line_within_chunk text 100 10 None 5%nat _ eq_refl _
                  (lit "the bond matures") 1 (or_introl eq_refl) eq_refl)).
Defined.

Lemma lower_char_idem (c : ascii) : lower_char (lower_char c) = lower_char c.
Proof. destruct c as [[] [] [] [] [] [] [] []]; reflexivity. Qed.

Lemma lower_idem (s : str) : lower (lower s) = lower s.
Proof.
  unfold lower. rewrite map_map. apply map_ext. intros c. apply lower_char_idem.
Qed.

(** X9.  Locating does not look at the case of the answer: two answers
    with the same lower-cased form are located alike, and so are an answer
    and its lower-cased form. *)
Theorem locate_case_insensitive (answer answer' chunk_text : str) :
  lower answer = lower answer' ->
  find_answer_location answer chunk_text = find_answer_location answer' chunk_text /\
  find_answer_location (lower answer) chunk_text = find_answer_location answer chunk_text.
Proof.
  intros H. split.
  - unfold find_answer_location. now rewrite H.
  - unfold find_answer_location. now rewrite lower_idem.
Qed.

(** X9, on two spellings of the same words. *)
Lemma locate_case_insensitive_witness :
  let chunk_text := lit "Terms and conditions
The bond matures in 2030" in
  lower (lit "THE Bond") = lower (lit "the bOND") /\
  find_answer_location (lit "THE Bond") chunk_text = Some 1 /\
  find_answer_location (lit "THE Bond") chunk_text
  = find_answer_location (lit "the bOND") chunk_text.
Proof.
  intros chunk_text. split; [reflexivity|]. split; [reflexivity|].
  exact (proj1 (locate_case_insensitive (lit "THE Bond") (lit "the bOND") chunk_text
                  eq_refl)).
Defined.

Lemma Forall_firstn {A : Type} (P : A -> Prop) (n : nat) (l : list A) :
  Forall P l -> Forall P (firstn n l).
Proof.
  intros H. revert n. induction H as [|a l Ha _ IH]; intros [|n]; cbn [firstn];
    constructor; auto.
Qed.

Lemma split_ws_from_words (s : str) :
  forall cur,
    Forall (fun c => isspace c = false) cur ->
    Forall is_word (split_ws_from cur s).
Proof.
  induction s as [|c s IH]; intros cur Hcur; cbn [split_ws_from].
  - destruct cur as [|x cur]; cbn [is_nil]; [constructor|].
    constructor; [|constructor]. split.
    + intros H. apply (f_equal (@length ascii)) in H.
      rewrite length_rev in H. discriminate.
    + now apply Forall_rev.
  - destruct (isspace c) eqn:E.
    + destruct cur as [|x cur]; cbn [is_nil]; [now apply IH|].
      constructor; [|now apply IH]. split.
      * intros H. apply (f_equal (@length ascii)) in H.
        rewrite length_rev in H. discriminate.
      * now apply Forall_rev.
    + apply IH. now constructor.
Qed.

Lemma split_ws_words (s : str) : Forall is_word (split_ws s).
Proof. apply split_ws_from_words. constructor. Qed.

Lemma is_word_lower (w : str) : is_word w -> is_word (lower w).
Proof.
  intros [Hne Hw]. split.
  - destruct w; [contradiction | discriminate].
  - unfold lower. apply Forall_map. eapply Forall_impl; [|exact Hw].
    intros c Hc. now rewrite isspace_lower_char.
Qed.

Lemma probe_words (answer : str) :
  exists ws, probe answer = join [space] ws /\ Forall is_word ws /\ (length ws <= 5)%nat.
Proof.
  exists (map lower (firstn 5 (split_ws answer))). split; [reflexivity|]. split.
  - apply Forall_map. eapply Forall_impl; [intros w; apply is_word_lower|].
    apply Forall_firstn. apply split_ws_words.
  - rewrite length_map, length_firstn. lia.
Qed.

Lemma count_newline_word (w : str) : is_word w -> count newline w = 0.
Proof.
  intros [_ Hw]. unfold count. induction Hw as [|c w Hc _ IH]; [reflexivity|].
  rewrite count_occ_cons_neq; [exact IH|]. intros ->. discriminate.
Qed.

Lemma count_newline_join (ws : list str) :
  Forall is_word ws -> count newline (join [space] ws) = 0.
Proof.
  induction 1 as [|w ws Hw _ IH]; [reflexivity|].
  destruct ws as [|w' ws]; cbn [join].
  - now apply count_newline_word.
  - rewrite !count_app, (count_newline_word w Hw). cbn [join] in IH. rewrite IH.
    reflexivity.
Qed.

(** X10.  A match never runs over a line break of the text that is
    searched: the probe holds no newline, so the lower-cased chunk text has
    as many newlines before the end of the first occurrence of the probe as
    before its start.  The line returned is the number of newlines among
    the first [p] characters of the chunk text, [p] being the offset of
    that occurrence in the lower-cased text. *)
Theorem located_match_on_one_line (answer chunk_text : str) (n : Z) :
  find_answer_location answer chunk_text = Some n ->
  count newline (probe answer) = 0 /\
  exists p,
    first_occurrence (probe answer) (lower chunk_text) p /\
    n = count newline (slice chunk_text 0 (Z.of_nat p)) /\
    count newline (slice (lower chunk_text) 0 (Z.of_nat p + len (probe answer)))
    = count newline (slice (lower chunk_text) 0 (Z.of_nat p)).
Proof.
  intros H.
  assert (Hprobe : count newline (probe answer) = 0).
  { destruct (probe_words answer) as (ws & -> & Hws & _). now apply count_newline_join. }
  split; [exact Hprobe|].
  destruct (locate_some _ _ _ H) as (p & Hp & ->). exists p.
  split; [exact Hp|]. split; [now rewrite slice_prefix|].
  unfold len. rewrite <- Nat2Z.inj_add, !slice_prefix.
  destruct Hp as [(pre & post & Heq & Hlen) _]. rewrite Heq, <- Hlen.
  assert (H1 : firstn (length pre) (pre ++ probe answer ++ post) = pre).
  { rewrite firstn_app, Nat.sub_diag, firstn_all. cbn [firstn]. apply app_nil_r. }
  assert (H2 : firstn (length pre + length (probe answer)) (pre ++ probe answer ++ post)
               = pre ++ probe answer).
  { rewrite app_assoc.
    replace (length pre + length (probe answer))%nat
      with (length (pre ++ probe answer)) by apply length_app.
    rewrite firstn_app, Nat.sub_diag, firstn_all. cbn [firstn]. apply app_nil_r. }
  rewrite H1, H2, count_app, Hprobe. lia.
Qed.

(** X10, on the bond example: the probe of 24 characters holds no
    newline. *)
Lemma located_match_on_one_line_witness :
  let answer := lit "The bond matures in 2030" in
  let chunk_text := lit "Terms and conditions
The bond matures in 2030 under German law" in
  find_answer_location answer chunk_text = Some 1 /\
  count newline (probe answer) = 0.
Proof.
  intros answer chunk_text. split; [reflexivity|].
  exact (proj1 (located_match_on_one_line answer chunk_text 1 eq_refl)).
Defined.

Lemma split_ws_from_word (w : str) :
  Forall (fun c => isspace c = false) w ->
  forall cur rest, split_ws_from cur (w ++ rest) = split_ws_from (rev w ++ cur) rest.
Proof.
  induction 1 as [|c w Hc _ IH]; intros cur rest; [reflexivity|].
  cbn [app split_ws_from]. rewrite Hc, IH. cbn [rev]. now rewrite <- app_assoc.
Qed.

(** Splitting what [join] made of words gives the words back. *)
Lemma split_ws_join (ws : list str) :
  Forall is_word ws -> split_ws (join [space] ws) = ws.
Proof.
  unfold split_ws. induction 1 as [|w ws [Hne Hw] _ IH]; [reflexivity|].
  assert (Hrev : is_nil (rev w ++ []) = false).
  { destruct w as [|c w]; [contradiction|]. cbn [rev].
    destruct (rev w); reflexivity. }
  destruct ws as [|w' ws]; cbn [join].
  - rewrite <- (app_nil_r w) at 1. rewrite split_ws_from_word by assumption.
    cbn [split_ws_from]. rewrite Hrev, app_nil_r, rev_involutive. reflexivity.
  - rewrite split_ws_from_word by assumption.
    cbn [app split_ws_from]. change (isspace space) with true. cbn iota.
    rewrite Hrev, app_nil_r, rev_involutive. f_equal. exact IH.
Qed.

Lemma is_word_lower_idem (ws : list str) :
  map lower (map lower ws) = map lower ws.
Proof. rewrite map_map. apply map_ext. intros w. apply lower_idem. Qed.

(** X11.  Only the first five words of the answer count, and neither their
    case nor the whitespace around them: the probe is a fixed point, and
    locating the probe gives what locating the answer gives. *)
Theorem locate_first_five_words (answer chunk_text : str) :
  probe (probe answer) = probe answer /\
  find_answer_location (probe answer) chunk_text
  = find_answer_location answer chunk_text.
Proof.
  assert (H : probe (probe answer) = probe answer).
  { unfold probe at 1 2.
    assert (Hws : Forall is_word (map lower (firstn 5 (split_ws answer)))).
    { apply Forall_map. eapply Forall_impl; [intros w; apply is_word_lower|].
      apply Forall_firstn. apply split_ws_words. }
    rewrite (split_ws_join _ Hws).
    rewrite firstn_all2 by (rewrite length_map, length_firstn; lia).
    rewrite is_word_lower_idem. reflexivity. }
  split; [exact H|].
  rewrite !find_answer_location_probe. now rewrite H.
Qed.

(* ================================================================== *)
(** ** More on generation: fences, malformed pairs, collection *)
(* ================================================================== *)

Lemma split_on_from_length (sep : str) (s : str) :
  forall skip cur, (1 <= length (split_on_from sep skip cur s))%nat.
Proof.
  induction s as [|c s IH]; intros skip cur; cbn [split_on_from].
  - simpl. lia.
  - destruct skip as [|k]; [|apply IH].
    destruct (startswith sep (c :: s)); [cbn [length]; lia | apply IH].
Qed.

(** A separator that [find] finds cuts the string in two pieces at least. *)
Lemma split_on_from_found (sep : str) (s : str) :
  sep <> [] ->
  forall i cur,
    0 <= i -> 0 <= find_from i sep s ->
    (2 <= length (split_on_from sep 0 cur s))%nat.
Proof.
  intros Hsep. induction s as [|c s IH]; intros i cur Hi Hf.
  - cbn [find_from] in Hf. destruct sep as [|x sep]; [contradiction|].
    cbn [startswith] in Hf. lia.
  - cbn [find_from] in Hf. cbn [split_on_from].
    destruct (startswith sep (c :: s)).
    + cbn [length]. pose proof (split_on_from_length sep s (Nat.pred (length sep)) []).
      lia.
    + apply (IH (i + 1)); lia.
Qed.

Lemma index_in_range {A : Type} (l : list A) (i : Z) :
  0 <= i < len l -> exists a, index l i = Returned a.
Proof.
  intros Hi. unfold index.
  destruct (i <? 0) eqn:E; [apply Z.ltb_lt in E; lia|].
  assert (E1 : ((i <? 0) || (len l <=? i)) = false).
  { rewrite E. apply Z.leb_gt. lia. }
  rewrite E1.
  destruct (nth_error l (Z.to_nat i)) as [a|] eqn:En; [now exists a|].
  apply nth_error_None in En. unfold len in Hi. lia.
Qed.

Lemma fenced_piece (content fence : str) :
  fence <> [] -> contains content fence = true ->
  exists b,
    bind (index (split_on content fence) 1) (fun a =>
    bind (index (split_on a (lit "```")) 0) (fun b => Returned (strip b)))
    = Returned b.
Proof.
  intros Hne Hc. unfold contains, find in Hc. apply Z.leb_le in Hc.
  pose proof (split_on_from_found fence content Hne 0 [] (Z.le_refl 0) Hc) as H2.
  destruct (index_in_range (split_on content fence) 1) as [a Ha].
  { unfold split_on, len. lia. }
  rewrite Ha. cbn [bind].
  pose proof (split_on_from_length (lit "```") a 0 []) as H1.
  destruct (index_in_range (split_on a (lit "```")) 0) as [b Hb].
  { unfold split_on, len. lia. }
  rewrite Hb. cbn [bind]. now exists (strip b).
Qed.

(** X12.  Taking the JSON out of a fenced block never raises: when the
    content holds a fence, the two subscripts [[1]] and [[0]] are always
    in range; a content without any fence is returned as it is. *)
Theorem strip_fence_never_raises (content : str) :
  (exists content', strip_fence content = Returned content') /\
  (contains content (lit "```") = false -> strip_fence content = Returned content).
Proof.
  split.
  - unfold strip_fence. cbv zeta.
    destruct (contains content (lit "```json")) eqn:E1.
    + apply fenced_piece; [discriminate | assumption].
    + destruct (contains content (lit "```")) eqn:E2.
      * apply fenced_piece; [discriminate | assumption].
      * now exists content.
  - intros H. unfold strip_fence. cbv zeta.
    destruct (contains content (lit "```json")) eqn:E1.
    + exfalso. unfold contains, find in *. apply Z.leb_le in E1. apply Z.leb_gt in H.
      destruct (find_from_spec (lit "```json") content 0)
        as [[Hf _] | (p & _ & (pre & post & Heq & _) & _)]; [lia|].
      destruct (find_from_spec (lit "```") content 0) as [[_ Hno] | (q & Hq & _)];
        [|lia].
      apply (Hno (length pre)). exists pre, (lit "json" ++ post). split; [|reflexivity].
      rewrite Heq. reflexivity.
    + now rewrite H.
Qed.

Lemma mapM_raises {A B : Type} (f : A -> outcome B) (l : list A) (x : A) (e : exn) :
  (forall a, f a <> OutOfFuel) -> In x l -> f x = Raised e ->
  exists e', mapM f l = Raised e'.
Proof.
  intros Hf Hin Hx. induction l as [|a l IH]; [destruct Hin|].
  cbn [mapM]. destruct (f a) as [b| e'|] eqn:Ea.
  - destruct Hin as [-> | Hin]; [congruence|].
    destruct (IH Hin) as [e' He']. cbn [bind]. rewrite He'. now exists e'.
  - now exists e'.
  - now apply Hf in Ea.
Qed.

Lemma mapM_Forall2 {A B : Type} (f : A -> outcome B) (P : A -> B -> Prop) (l : list A) :
  (forall a, In a l -> exists b, f a = Returned b /\ P a b) ->
  exists l', mapM f l = Returned l' /\ Forall2 P l l'.
Proof.
  induction l as [|a l IH]; intros H.
  - exists []. split; [reflexivity | constructor].
  - destruct (H a (or_introl eq_refl)) as (b & Hb & Pb).
    destruct IH as (l' & Hl' & HF); [intros a' Ha'; apply H; now right|].
    exists (b :: l'). cbn [mapM]. rewrite Hb. cbn [bind]. rewrite Hl'. cbn [bind].
    split; [reflexivity | now constructor].
Qed.

Lemma add_reference_no_fuel (chunk_data : Chunk.t) (qa : Json.t) :
  add_reference chunk_data qa <> OutOfFuel.
Proof.
  unfold add_reference. destruct qa; try discriminate.
  unfold getitem. destruct (lookup _ _) as [[| | | a | |]|]; cbn [bind]; try discriminate.
  destruct (find_answer_location a (Chunk.text chunk_data)); discriminate.
Qed.

Lemma add_reference_malformed (chunk_data : Chunk.t) (qa : Json.t) :
  malformed_pair qa -> exists e, add_reference chunk_data qa = Raised e.
Proof.
  unfold malformed_pair, add_reference.
  destruct qa as [| b | z | s | l | d]; intros H; try (now eexists).
  unfold getitem. rewrite lookup_set_other by discriminate.
  destruct (lookup d (lit "answer")) as [[| | | a | |]|]; cbn [bind];
    try contradiction; now eexists.
Qed.

Lemma add_reference_wf (chunk_data : Chunk.t) (qa : Json.t) :
  ~ malformed_pair qa ->
  exists qa', add_reference chunk_data qa = Returned qa' /\ referenced chunk_data qa qa'.
Proof.
  unfold malformed_pair. destruct qa as [| b | z | s | l | d]; intros H;
    try (exfalso; now apply H).
  destruct (lookup d (lit "answer")) as [[| | | a | |]|] eqn:Ha;
    try (exfalso; now apply H).
  destruct (find_answer_location a (Chunk.text chunk_data)) as [n|] eqn:En.
  - rewrite (add_reference_found chunk_data d a n Ha En). eexists. split; [reflexivity|].
    exists d. eexists. eexists. split; [reflexivity|]. split; [reflexivity|].
    split; [apply lookup_set_same|]. split.
    + intros k Hk. now rewrite !lookup_set_other by congruence.
    + repeat split.
  - rewrite (add_reference_absent chunk_data d a Ha En). eexists. split; [reflexivity|].
    exists d. eexists. eexists. split; [reflexivity|]. split; [reflexivity|].
    split; [apply lookup_set_same|]. split.
    + intros k Hk. now rewrite !lookup_set_other by congruence.
    + repeat split.
Qed.

(** What [add_references] returns can be iterated over. *)
Lemma add_references_iterable (chunk_data : Chunk.t) (qa_pairs v : Json.t) :
  add_references chunk_data qa_pairs = Returned v ->
  exists items, iter v = Returned items.
Proof.
  unfold add_references.
  destruct qa_pairs as [| b | z | s | l | d]; cbn [iter bind]; try discriminate.
  - destruct (mapM _ _); cbn [bind]; try discriminate.
    intros H. injection H as <-. now eexists.
  - destruct (mapM _ _); cbn [bind]; try discriminate.
    intros H. injection H as <-. now eexists.
  - destruct (mapM _ _); cbn [bind]; try discriminate.
    intros H. injection H as <-. now eexists.
Qed.

Lemma generate_body_parsed (create : Z -> str -> outcome str)
  (json_loads : str -> outcome Json.t) (chunk_data : Chunk.t) (num_pairs : Z)
  (content content' : str) (qa_pairs : Json.t) :
  create num_pairs (Chunk.text chunk_data) = Returned content ->
  strip_fence content = Returned content' ->
  json_loads content' = Returned qa_pairs ->
  generate_body create json_loads chunk_data num_pairs = add_references chunk_data qa_pairs.
Proof.
  intros Hc Hs Hj. unfold generate_body. rewrite Hc. cbn [bind]. rewrite Hs. cbn [bind].
  now rewrite Hj.
Qed.

Lemma generate_iterable (create : Z -> str -> outcome str)
  (json_loads : str -> outcome Json.t) (chunk_data : Chunk.t) (num_pairs : Z) (v : Json.t) :
  generate_qa_pairs_with_refs create json_loads chunk_data num_pairs = Returned v ->
  exists items, iter v = Returned items.
Proof.
  unfold generate_qa_pairs_with_refs, generate_body.
  destruct (create num_pairs (Chunk.text chunk_data)) as [content| |]; cbn [bind try_except];
    [| intros H; injection H as <-; now eexists | discriminate].
  destruct (strip_fence content) as [content'| |]; cbn [bind try_except];
    [| intros H; injection H as <-; now eexists | discriminate].
  destruct (json_loads content') as [qa_pairs| |]; cbn [bind try_except];
    [| intros H; injection H as <-; now eexists | discriminate].
  destruct (add_references chunk_data qa_pairs) as [v'| |] eqn:E; cbn [try_except];
    [| intros H; injection H as <-; now eexists | discriminate].
  intros H. injection H as <-. eapply add_references_iterable; eassumption.
Qed.

(** X13.  One malformed pair costs the whole chunk: when the parsed
    response is a list in which some element is not a dictionary, or has no
    string under "answer", [generate_qa_pairs_with_refs] returns the empty
    list, the well-formed pairs of that response included. *)
Theorem one_malformed_pair_drops_chunk
  (create : Z -> str -> outcome str) (json_loads : str -> outcome Json.t)
  (chunk_data : Chunk.t) (num_pairs : Z) (content content' : str)
  (items : list Json.t) (qa : Json.t) :
  create num_pairs (Chunk.text chunk_data) = Returned content ->
  strip_fence content = Returned content' ->
  json_loads content' = Returned (JList items) ->
  In qa items -> malformed_pair qa ->
  generate_qa_pairs_with_refs create json_loads chunk_data num_pairs = Returned (JList []).
Proof.
  intros Hc Hs Hj Hin Hbad. unfold generate_qa_pairs_with_refs.
  rewrite (generate_body_parsed _ _ _ _ _ _ _ Hc Hs Hj).
  unfold add_references. cbn [iter bind].
  destruct (add_reference_malformed chunk_data qa Hbad) as [e He].
  destruct (mapM_raises (add_reference chunk_data) items qa e
              (add_reference_no_fuel chunk_data) Hin He) as [e' He'].
  rewrite He'. reflexivity.
Qed.

(** X13, on a response of two pairs whose second has no answer. *)
Lemma one_malformed_pair_drops_chunk_witness :
  let good := JObj [(lit "question", JStr (lit "q")); (lit "answer", JStr (lit "a"))] in
  let bad := JObj [(lit "question", JStr (lit "q2"))] in
  let create := fun (_ : Z) (_ : str) => Returned (lit "DOC") in
  let json_loads := fun (_ : str) => Returned (JList [good; bad]) in
  let chunk_data := fst (chunk_at (lit "some text") 20 0 None 0 0) in
  malformed_pair bad /\
  generate_qa_pairs_with_refs create json_loads chunk_data 5 = Returned (JList []).
Proof.
  intros good bad create json_loads chunk_data. split; [exact I|].
  apply (one_malformed_pair_drops_chunk create json_loads chunk_data 5
           (lit "DOC") (lit "DOC") [good; bad] bad eq_refl eq_refl eq_refl).
  - right. left. reflexivity.
  - exact I.
Defined.

(** X14.  When the parsed response is a list of well-formed pairs, the
    function returns as many pairs in the same order; each keeps every key
    it had but "reference", which now holds the chunk's id, character range
    and line range. *)
Theorem well_formed_response_referenced
  (create : Z -> str -> outcome str) (json_loads : str -> outcome Json.t)
  (chunk_data : Chunk.t) (num_pairs : Z) (content content' : str)
  (items : list Json.t) :
  create num_pairs (Chunk.text chunk_data) = Returned content ->
  strip_fence content = Returned content' ->
  json_loads content' = Returned (JList items) ->
  (forall qa, In qa items -> ~ malformed_pair qa) ->
  exists items',
    generate_qa_pairs_with_refs create json_loads chunk_data num_pairs
    = Returned (JList items') /\
    Forall2 (referenced chunk_data) items items' /\
    length items' = length items.
Proof.
  intros Hc Hs Hj Hwf. unfold generate_qa_pairs_with_refs.
  rewrite (generate_body_parsed _ _ _ _ _ _ _ Hc Hs Hj).
  unfold add_references. cbn [iter bind].
  destruct (mapM_Forall2 (add_reference chunk_data) (referenced chunk_data) items)
    as (items' & Hm & HF).
  { intros qa Hin. apply add_reference_wf. now apply Hwf. }
  exists items'. rewrite Hm. cbn [bind try_except]. split; [reflexivity|].
  split; [exact HF | symmetry; eapply Forall2_length; exact HF].
Qed.

(** X14, on a response of two well-formed pairs. *)
Lemma well_formed_response_referenced_witness :
  let p1 := JObj [(lit "question", JStr (lit "q1")); (lit "answer", JStr (lit "some"))] in
  let p2 := JObj [(lit "question", JStr (lit "q2")); (lit "answer", JStr (lit "zzz"))] in
  let create := fun (_ : Z) (_ : str) => Returned (lit "DOC") in
  let json_loads := fun (_ : str) => Returned (JList [p1; p2]) in
  let chunk_data := fst (chunk_at (lit "some text") 20 0 None 0 0) in
  exists items',
    generate_qa_pairs_with_refs create json_loads chunk_data 5 = Returned (JList items') /\
    Forall2 (referenced chunk_data) [p1; p2] items' /\
    length items' = 2%nat.
Proof.
  intros p1 p2 create json_loads chunk_data.
  apply (well_formed_response_referenced create json_loads chunk_data 5
           (lit "DOC") (lit "DOC") [p1; p2] eq_refl eq_refl eq_refl).
  intros qa [<- | [<- | []]]; intros H; exact H.
Defined.

Lemma collect_app (create : Z -> str -> outcome str) (json_loads : str -> outcome Json.t)
  (num_pairs : Z) (chunks chunks' : list Chunk.t) :
  forall all_qa_pairs,
    collect create json_loads num_pairs (chunks ++ chunks') all_qa_pairs =
    bind (collect create json_loads num_pairs chunks all_qa_pairs)
         (fun collected => collect create json_loads num_pairs chunks' collected).
Proof.
  induction chunks as [|c chunks IH]; intros all_qa_pairs; cbn [app collect]; [reflexivity|].
  destruct (generate_qa_pairs_with_refs create json_loads c num_pairs) as [qa| |];
    cbn [bind]; try reflexivity.
  destruct (iter qa); cbn [bind]; try reflexivity. apply IH.
Qed.

Lemma collect_never_raises (create : Z -> str -> outcome str)
  (json_loads : str -> outcome Json.t) (num_pairs : Z) (chunks : list Chunk.t) :
  forall all_qa_pairs e,
    collect create json_loads num_pairs chunks all_qa_pairs <> Raised e.
Proof.
  induction chunks as [|c chunks IH]; intros all_qa_pairs e; cbn [collect]; [discriminate|].
  destruct (generate_qa_pairs_with_refs create json_loads c num_pairs) as [qa| e' |] eqn:E;
    cbn [bind]; try discriminate.
  - destruct (generate_iterable _ _ _ _ _ E) as [items Hi]. rewrite Hi. cbn [bind].
    apply IH.
  - now apply generate_never_raises in E.
Qed.

Lemma collect_extends (create : Z -> str -> outcome str)
  (json_loads : str -> outcome Json.t) (num_pairs : Z) (chunks : list Chunk.t) :
  forall all_qa_pairs collected,
    collect create json_loads num_pairs chunks all_qa_pairs = Returned collected ->
    exists items, collected = all_qa_pairs ++ items.
Proof.
  induction chunks as [|c chunks IH]; intros all_qa_pairs collected; cbn [collect].
  - intros H. injection H as <-. exists []. now rewrite app_nil_r.
  - destruct (generate_qa_pairs_with_refs create json_loads c num_pairs) as [qa| |];
      cbn [bind]; try discriminate.
    destruct (iter qa) as [items| |]; cbn [bind]; try discriminate.
    intros H. destruct (IH _ _ H) as [items' ->]. exists (items ++ items').
    now rewrite app_assoc.
Qed.

(** X15.  The loop of [main] over the chunks never raises, whatever the
    collaborator does; it collects chunk after chunk (the run over
    [chunks ++ chunks'] is the run over [chunks'] started from what the run
    over [chunks] collected), and the pairs collected so far stay in front,
    in their order. *)
Theorem collect_in_chunk_order
  (create : Z -> str -> outcome str) (json_loads : str -> outcome Json.t)
  (num_pairs : Z) :
  (forall chunks all_qa_pairs e,
     collect create json_loads num_pairs chunks all_qa_pairs <> Raised e) /\
  (forall chunks chunks' all_qa_pairs,
     collect create json_loads num_pairs (chunks ++ chunks') all_qa_pairs =
     bind (collect create json_loads num_pairs chunks all_qa_pairs)
          (fun collected => collect create json_loads num_pairs chunks' collected)) /\
  (forall chunks all_qa_pairs collected,
     collect create json_loads num_pairs chunks all_qa_pairs = Returned collected ->
     exists items, collected = all_qa_pairs ++ items).
Proof.
  split; [|split].
  - intros chunks. apply collect_never_raises.
  - intros chunks chunks'. apply collect_app.
  - intros chunks. apply collect_extends.
Qed.

(* ================================================================== *)
(** ** More on the review merge *)
(* ================================================================== *)

Lemma index_last {A : Type} (l : list A) (a : A) : index (l ++ [a]) (-1) = Returned a.
Proof.
  unfold index. change (-1 <? 0) with true. cbv iota.
  rewrite len_app. change (len [a]) with 1.
  replace (-1 + (len l + 1)) with (len l) by lia.
  pose proof (len_nonneg l) as Hl.
  assert (E : ((len l <? 0) || (len l + 1 <=? len l)) = false).
  { apply orb_false_iff. split; [apply Z.ltb_ge | apply Z.leb_gt]; lia. }
  rewrite E. unfold len. rewrite Nat2Z.id, nth_error_app2, Nat.sub_diag by lia.
  reflexivity.
Qed.

Lemma index_nth {A : Type} (l : list A) (i : Z) (a : A) :
  0 <= i -> nth_error l (Z.to_nat i) = Some a -> index l i = Returned a.
Proof.
  intros Hi Hn. unfold index.
  assert (Hlt : (Z.to_nat i < length l)%nat) by (apply nth_error_Some; congruence).
  destruct (i <? 0) eqn:E; [apply Z.ltb_lt in E; lia|].
  assert (E1 : ((i <? 0) || (len l <=? i)) = false).
  { rewrite E. apply Z.leb_gt. unfold len. lia. }
  now rewrite E1, Hn.
Qed.

(** The body of the loop on a reviewed record, once the last annotation
    and its review are known. *)
Lemma process_item_reviewed (original_qa processed_qa : list Json.t) (stats : Stats)
  (item : Item) (anns : list Annotation) (a : Annotation) (review_data : ReviewData) :
  annotations item = Some (anns ++ [a]) ->
  extract empty_review (result_of a) = Returned review_data ->
  process_item original_qa (processed_qa, stats) item =
  let qa_id := (match id item with Some i => i | None => 0 end) - 1 in
  if qa_id <? len original_qa
  then bind (merge original_qa qa_id review_data a) (fun qa_with_review =>
       Returned (processed_qa ++ [qa_with_review], update_stats stats review_data))
  else Returned (processed_qa, update_stats stats review_data).
Proof.
  intros Ha He. unfold process_item. rewrite Ha.
  assert (Hnil : is_nil (anns ++ [a]) = false) by (destruct anns; reflexivity).
  rewrite Hnil, index_last. cbn [bind]. fold (result_of a). rewrite He. reflexivity.
Qed.

Lemma process_item_unreviewed (original_qa : list Json.t) (state : list Json.t * Stats)
  (item : Item) :
  has_annotations item = false ->
  process_item original_qa state item = Returned state.
Proof.
  unfold has_annotations, process_item. intros H. destruct state as [p s].
  apply negb_false_iff in H. now rewrite H.
Qed.

(** X16.  A reviewed record whose id [i] is between 1 and the number of
    original pairs is merged with the pair at index [i - 1]: the output
    gains one dictionary that keeps every key of that pair and carries the
    review under "review", the reviewer under "reviewer_id" ("unknown"
    when the annotation names none) and the date under "review_date" (the
    empty string when absent). *)
Theorem in_range_record_merged (original_qa processed_qa : list Json.t) (stats : Stats)
  (item : Item) (i : Z) (anns : list Annotation) (a : Annotation)
  (review_data : ReviewData) (d : dict) :
  id item = Some i -> 1 <= i <= len original_qa ->
  annotations item = Some (anns ++ [a]) ->
  extract empty_review (result_of a) = Returned review_data ->
  nth_error original_qa (Z.to_nat (i - 1)) = Some (JObj d) ->
  exists d',
    process_item original_qa (processed_qa, stats) item
    = Returned (processed_qa ++ [JObj d'], update_stats stats review_data) /\
    lookup d' (lit "review") = Some (review_to_json review_data) /\
    lookup d' (lit "reviewer_id")
    = Some (match completed_by a with Some v => v | None => JStr (lit "unknown") end) /\
    lookup d' (lit "review_date")
    = Some (match created_at a with Some v => v | None => JStr [] end) /\
    (forall k,
       k <> lit "review" -> k <> lit "reviewer_id" -> k <> lit "review_date" ->
       lookup d' k = lookup d k).
Proof.
  intros Hid Hi Ha He Hn.
  rewrite (process_item_reviewed _ _ _ _ _ _ _ Ha He), Hid. cbv zeta.
  assert (E : (i - 1 <? len original_qa) = true) by (apply Z.ltb_lt; lia).
  rewrite E. unfold merge. rewrite (index_nth original_qa (i - 1) (JObj d) ltac:(lia) Hn). cbn [bind].
  eexists. split; [reflexivity|]. split; [|split; [|split]].
  - rewrite !lookup_set_other by discriminate. apply lookup_set_same.
  - rewrite !lookup_set_other by discriminate. apply lookup_set_same.
  - apply lookup_set_same.
  - intros k H1 H2 H3. now rewrite !lookup_set_other by congruence.
Qed.

(** X16, on the second of two pairs. *)
Lemma in_range_record_merged_witness :
  exists d',
    process_item sample_original ([], {| total := 1; completed := 0; st_accuracy := [];
                                         st_relevance := []; st_quality := [];
                                         st_issues := [] |}) (sample_item 2)
    = Returned ([JObj d'],
                update_stats {| total := 1; completed := 0; st_accuracy := [];
                                st_relevance := []; st_quality := []; st_issues := [] |}
                  {| accuracy := None; relevance := None; quality := Some (lit "Good");
                     issues := []; notes := None |}) /\
    lookup d' (lit "question") = Some (JStr (lit "Q2")) /\
    lookup d' (lit "reviewer_id") = Some (JInt 7).
Proof.
  destruct (in_range_record_merged sample_original []
              {| total := 1; completed := 0; st_accuracy := []; st_relevance := [];
                 st_quality := []; st_issues := [] |}
              (sample_item 2) 2 []
              {| result := Some [ {| from_name := lit "quality";
                                     choices := Some [lit "Good"]; text := None |} ];
                 completed_by := Some (JInt 7);
                 created_at := Some (JStr (lit "2024-05-01")) |}
              {| accuracy := None; relevance := None; quality := Some (lit "Good");
                 issues := []; notes := None |}
              [ (lit "question", JStr (lit "Q2")); (lit "answer", JStr (lit "A2")) ]
              eq_refl ltac:(unfold len, sample_original; simpl; lia) eq_refl eq_refl eq_refl)
    as (d' & Hp & _ & Hrid & _ & Hkeep).
  exists d'. split; [exact Hp|]. split; [|exact Hrid].
  rewrite Hkeep by discriminate. reflexivity.
Defined.

Lemma counter_total_incr (c : Counter) (k : option str) :
  counter_total (incr c k) = counter_total c + 1.
Proof.
  induction c as [|[k' n] c IH]; cbn [incr counter_total fold_right snd]; [lia|].
  destruct (key_eqb k' k); cbn [counter_total fold_right snd]; [lia|].
  fold (counter_total (incr c k)). fold (counter_total c). lia.
Qed.

(** What one pass of the loop does to the statistics and to the output. *)
Lemma process_item_step (original_qa : list Json.t) (p p' : list Json.t) (s s' : Stats)
  (item : Item) :
  process_item original_qa (p, s) item = Returned (p', s') ->
  total s' = total s /\
  completed s' = completed s + (if has_annotations item then 1 else 0) /\
  counter_total (st_accuracy s') - counter_total (st_accuracy s) = completed s' - completed s /\
  counter_total (st_relevance s') - counter_total (st_relevance s) = completed s' - completed s /\
  counter_total (st_quality s') - counter_total (st_quality s) = completed s' - completed s /\
  (p' = p \/ exists qa, has_annotations item = true /\ p' = p ++ [qa] /\ merged_pair qa) /\
  (Forall merged_pair p -> Forall merged_pair p').
Proof.
  destruct (has_annotations item) eqn:Hann.
  - unfold has_annotations in Hann. apply negb_true_iff in Hann.
    unfold process_item. rewrite Hann.
    destruct (index _ (-1)) as [a| |]; cbn [bind]; try discriminate.
    destruct (extract _ _) as [rd| |]; cbn [bind]; try discriminate.
    assert (Hst : forall st, st = update_stats s rd ->
              total st = total s /\ completed st = completed s + 1 /\
              counter_total (st_accuracy st) - counter_total (st_accuracy s)
              = completed st - completed s /\
              counter_total (st_relevance st) - counter_total (st_relevance s)
              = completed st - completed s /\
              counter_total (st_quality st) - counter_total (st_quality s)
              = completed st - completed s).
    { intros st ->. unfold update_stats.
      cbn [total completed st_accuracy st_relevance st_quality].
      rewrite !counter_total_incr. repeat split; lia. }
    destruct (_ <? len original_qa).
    + unfold merge. destruct (index original_qa _) as [qa| |]; cbn [bind]; try discriminate.
      destruct qa as [| b | z | x | l | d]; cbn [bind]; try discriminate.
      intros H. injection H as <- <-.
      destruct (Hst _ eq_refl) as (H1 & H2 & H3 & H4 & H5).
      assert (Hm : merged_pair
                (JObj (set (set (set d (lit "review") (review_to_json rd))
                              (lit "reviewer_id")
                              match completed_by a with
                              | Some v => v
                              | None => JStr (lit "unknown")
                              end)
                         (lit "review_date")
                         match created_at a with
                         | Some v => v
                         | None => JStr []
                         end))).
      { eexists. exists rd. split; [reflexivity|].
        rewrite !lookup_set_other by discriminate. apply lookup_set_same. }
      repeat split; try assumption.
      * right. eexists. split; [reflexivity|]. split; [reflexivity | exact Hm].
      * intros HF. apply Forall_app. split; [assumption|]. now constructor.
    + intros H. injection H as <- <-.
      destruct (Hst _ eq_refl) as (H1 & H2 & H3 & H4 & H5).
      repeat split; try assumption; auto.
  - rewrite process_item_unreviewed by assumption.
    intros H. injection H as <- <-. repeat split; try lia; auto.
Qed.

Lemma process_items_invariant (original_qa : list Json.t) (items : list Item) :
  forall p s p' s',
    process_items original_qa (p, s) items = Returned (p', s') ->
    total s' = total s /\
    completed s' = completed s + len (filter has_annotations items) /\
    counter_total (st_accuracy s') - counter_total (st_accuracy s) = completed s' - completed s /\
    counter_total (st_relevance s') - counter_total (st_relevance s) = completed s' - completed s /\
    counter_total (st_quality s') - counter_total (st_quality s) = completed s' - completed s /\
    len p <= len p' /\ len p' - len p <= completed s' - completed s /\
    (Forall merged_pair p -> Forall merged_pair p').
Proof.
  induction items as [|item items IH]; intros p s p' s'; cbn [process_items].
  - intros H. injection H as <- <-. cbn [filter]. change (len (@nil Item)) with 0.
    repeat split; try lia; auto.
  - destruct (process_item original_qa (p, s) item) as [[p1 s1]| |] eqn:E; cbn [bind];
      try discriminate.
    intros H. apply IH in H. apply process_item_step in E.
    destruct E as (E1 & E2 & E3 & E4 & E5 & E6 & E7).
    destruct H as (H1 & H2 & H3 & H4 & H5 & H6 & H7 & H8).
    cbn [filter].
    assert (Hlen : len (if has_annotations item
                        then item :: filter has_annotations items
                        else filter has_annotations items)
                   = (if has_annotations item then 1 else 0)
                     + len (filter has_annotations items)).
    { destruct (has_annotations item); unfold len; cbn [length]; lia. }
    rewrite Hlen.
    assert (Hp : len p <= len p1 /\ len p1 - len p <= completed s1 - completed s).
    { destruct E6 as [-> | (qa & Hann & -> & _)].
      - destruct (has_annotations item); lia.
      - rewrite Hann in E2. rewrite len_app. change (len [qa]) with 1. lia. }
    repeat split; try lia. auto.
Qed.

(** X17.  When [process_labelstudio_export] returns, [total] is the number
    of records of the export, [completed] is the number of records that
    carry at least one annotation, the accuracy, relevance and quality
    counters each sum to [completed], and no more pairs were merged than
    records completed. *)
Theorem export_statistics (reviewed_data : list Item) (original_qa processed_qa : list Json.t)
  (stats : Stats) :
  process_labelstudio_export reviewed_data original_qa = Returned (processed_qa, stats) ->
  total stats = len reviewed_data /\
  completed stats = len (filter has_annotations reviewed_data) /\
  completed stats <= total stats /\
  counter_total (st_accuracy stats) = completed stats /\
  counter_total (st_relevance stats) = completed stats /\
  counter_total (st_quality stats) = completed stats /\
  len processed_qa <= completed stats.
Proof.
  unfold process_labelstudio_export. intros H.
  apply process_items_invariant in H.
  cbn [total completed st_accuracy st_relevance st_quality counter_total fold_right] in H.
  destruct H as (H1 & H2 & H3 & H4 & H5 & H6 & H7 & _).
  change (len (@nil Json.t)) with 0 in *.
  assert (Hf : len (filter has_annotations reviewed_data) <= len reviewed_data).
  { unfold len. pose proof (filter_length_le has_annotations reviewed_data). lia. }
  repeat split; lia.
Qed.

(** X17, on an export of one reviewed record and one without annotations. *)
Lemma export_statistics_witness :
  exists processed_qa stats,
    process_labelstudio_export
      [sample_item 1; {| id := Some 2; annotations := Some [] |}] sample_original
    = Returned (processed_qa, stats) /\
    total stats = 2 /\ completed stats = 1 /\
    counter_total (st_quality stats) = 1 /\ len processed_qa = 1.
Proof.
  eexists. eexists. split; [reflexivity|].
  pose proof (export_statistics
                [sample_item 1; {| id := Some 2; annotations := Some [] |}]
                sample_original _ _ eq_refl) as (H1 & H2 & _ & _ & _ & H6 & _).
  repeat split; assumption.
Defined.

(** X18.  Only the last annotation of a record is read: the annotations
    before it change nothing, and a record without annotations (no key, or
    an empty list) leaves the output and the statistics as they were. *)
Theorem only_last_annotation_counts (original_qa : list Json.t)
  (state : list Json.t * Stats) (i : option Z) (anns : list Annotation) (a : Annotation) :
  process_item original_qa state {| id := i; annotations := Some (anns ++ [a]) |} =
  process_item original_qa state {| id := i; annotations := Some [a] |} /\
  process_item original_qa state {| id := i; annotations := Some [] |} = Returned state /\
  process_item original_qa state {| id := i; annotations := None |} = Returned state.
Proof.
  split; [|split].
  - unfold process_item. destruct state as [p s]. cbn [annotations id].
    assert (Hnil : is_nil (anns ++ [a]) = false) by (destruct anns; reflexivity).
    rewrite Hnil, index_last. reflexivity.
  - now apply process_item_unreviewed.
  - now apply process_item_unreviewed.
Qed.

Lemma process_items_app (original_qa : list Json.t) (items items' : list Item) :
  forall state,
    process_items original_qa state (items ++ items') =
    bind (process_items original_qa state items)
         (fun state' => process_items original_qa state' items').
Proof.
  induction items as [|item items IH]; intros state; cbn [app process_items]; [reflexivity|].
  destruct (process_item original_qa state item); cbn [bind]; try reflexivity. apply IH.
Qed.

Lemma extract_app (pre post : list Entry) :
  forall review_data,
    extract review_data (pre ++ post) =
    bind (extract review_data pre) (fun rd => extract rd post).
Proof.
  induction pre as [|r pre IH]; intros review_data; cbn [app extract]; [reflexivity|].
  destruct (extract_entry review_data r); cbn [bind]; try reflexivity. apply IH.
Qed.

(** A choice entry without a first choice makes the extraction raise. *)
Lemma extract_entry_no_choice (review_data : ReviewData) (r : Entry) :
  from_name r = lit "accuracy" \/ from_name r = lit "relevance" \/
  from_name r = lit "quality" ->
  (choices r = Some [] -> extract_entry review_data r = Raised IndexError) /\
  (choices r = None -> extract_entry review_data r = Raised KeyError).
Proof.
  intros H. unfold extract_entry.
  destruct H as [-> | [-> | ->]]; split; intros ->; reflexivity.
Qed.

(** X19.  One malformed entry ends the whole batch: when the last
    annotation of a record holds an accuracy, relevance or quality entry
    whose list of choices is empty, the export raises [IndexError] (and
    [KeyError] when the entry has no choices at all), whatever was merged
    from the records before it and whatever follows. *)
Theorem entry_without_choice_aborts (original_qa : list Json.t)
  (state state' : list Json.t * Stats) (before after : list Item)
  (i : option Z) (anns : list Annotation) (a : Annotation)
  (pre post : list Entry) (r : Entry) (review_data : ReviewData) :
  process_items original_qa state before = Returned state' ->
  result_of a = pre ++ r :: post ->
  extract empty_review pre = Returned review_data ->
  from_name r = lit "accuracy" \/ from_name r = lit "relevance" \/
  from_name r = lit "quality" ->
  (choices r = Some [] ->
   process_items original_qa state
     (before ++ {| id := i; annotations := Some (anns ++ [a]) |} :: after)
   = Raised IndexError) /\
  (choices r = None ->
   process_items original_qa state
     (before ++ {| id := i; annotations := Some (anns ++ [a]) |} :: after)
   = Raised KeyError).
Proof.
  intros Hb Hr Hpre Hname.
  assert (Hitem : forall e, extract_entry review_data r = Raised e ->
            process_items original_qa state
              (before ++ {| id := i; annotations := Some (anns ++ [a]) |} :: after)
            = Raised e).
  { intros e He. rewrite process_items_app, Hb. cbn [bind process_items].
    destruct state' as [p s]. unfold process_item. cbn [annotations id].
    assert (Hnil : is_nil (anns ++ [a]) = false) by (destruct anns; reflexivity).
    rewrite Hnil, index_last. cbn [bind]. fold (result_of a).
    rewrite Hr, extract_app, Hpre. cbn [bind extract]. rewrite He. reflexivity. }
  destruct (extract_entry_no_choice review_data r Hname) as [H1 H2].
  split; intros Hc; apply Hitem; auto.
Qed.

(** X19, on an export whose second record rates the quality with no
    choice. *)
Lemma entry_without_choice_aborts_witness :
  process_labelstudio_export
    [ sample_item 1;
      {| id := Some 2;
         annotations := Some [ {| result := Some [ {| from_name := lit "quality";
                                                      choices := Some [];
                                                      text := None |} ];
                                  completed_by := None; created_at := None |} ] |};
      sample_item 1 ]
    sample_original
  = Raised IndexError.
Proof.
  unfold process_labelstudio_export. cbv zeta.
  match goal with
  | |- process_items _ ?st _ = _ =>
      eassert (Hb : process_items sample_original st [sample_item 1] = Returned _)
        by reflexivity
  end.
  exact (proj1 (entry_without_choice_aborts sample_original _ _ [sample_item 1]
                  [sample_item 1] (Some 2) []
                  {| result := Some [ {| from_name := lit "quality"; choices := Some [];
                                         text := None |} ];
                     completed_by := None; created_at := None |}
                  [] [] {| from_name := lit "quality"; choices := Some []; text := None |}
                  empty_review Hb eq_refl eq_refl
                  (or_intror (or_intror eq_refl))) eq_refl).
Defined.

Lemma accepts_merged (min_level : Z) (qa : Json.t) :
  merged_pair qa -> exists ok, accepts min_level qa = Returned ok.
Proof.
  intros (d & rd & -> & Hr).
  assert (Hrev : review_of d = review_to_json rd) by (unfold review_of, get; now rewrite Hr).
  unfold review_to_json in Hrev. rewrite (accepts_dict _ _ _ Hrev).
  unfold quality_of, get. cbn [lookup lit list_ascii_of_string str_eqb Ascii.eqb
                               Bool.eqb andb].
  destruct (quality rd); cbn [of_option levels_get bind]; now eexists.
Qed.

Lemma accepts_unlabelled (min_quality : str) (d : dict) (review_data : ReviewData) :
  lookup d (lit "review") = Some (review_to_json review_data) ->
  quality review_data = None \/ accuracy review_data = None ->
  accepts (threshold min_quality) (JObj d) = Returned false.
Proof.
  intros Hr Hnone.
  assert (Hrev : review_of d = review_to_json review_data)
    by (unfold review_of, get; now rewrite Hr).
  unfold review_to_json in Hrev. rewrite (accepts_dict _ _ _ Hrev).
  unfold quality_of, accuracy_of, get.
  cbn [lookup lit list_ascii_of_string str_eqb Ascii.eqb Bool.eqb andb].
  pose proof (threshold_bounds min_quality) as Hb.
  destruct Hnone as [Hq | Ha].
  - rewrite Hq. cbn [of_option levels_get bind].
    assert (E : (threshold min_quality <=? 0) = false) by (apply Z.leb_gt; lia).
    now rewrite E.
  - rewrite Ha. cbn [of_option eq_str orb].
    destruct (quality review_data); cbn [of_option levels_get bind];
      now rewrite andb_false_r.
Qed.

(** X20.  The filter never raises on what the merge produced: for every
    threshold it sorts each merged pair into exactly one of the two lists.
    A merged pair whose reviewer left the quality or the accuracy
    unanswered is rejected at every threshold. *)
Theorem merged_pairs_pass_through_filter (reviewed_data : list Item)
  (original_qa processed_qa : list Json.t) (stats : Stats) (min_quality : str) :
  process_labelstudio_export reviewed_data original_qa = Returned (processed_qa, stats) ->
  (exists filtered_qa rejected_qa,
     filter_qa_by_quality processed_qa min_quality = Returned (filtered_qa, rejected_qa) /\
     len filtered_qa + len rejected_qa = len processed_qa) /\
  Forall merged_pair processed_qa /\
  (forall d review_data,
     lookup d (lit "review") = Some (review_to_json review_data) ->
     quality review_data = None \/ accuracy review_data = None ->
     filter_qa_by_quality [JObj d] min_quality = Returned ([], [JObj d])).
Proof.
  unfold process_labelstudio_export. intros H.
  apply process_items_invariant in H.
  destruct H as (_ & _ & _ & _ & _ & _ & _ & HF). specialize (HF (Forall_nil _)).
  split; [|split; [exact HF|]].
  - rewrite filter_qa_by_quality_threshold.
    rewrite filter_loop_app
      by (intros qa Hin; apply accepts_merged; rewrite Forall_forall in HF; now apply HF).
    eexists. eexists. split; [reflexivity|].
    cbn [app]. unfold len.
    pose proof (filter_length
                  (fun qa => match accepts (threshold min_quality) qa with
                             | Returned true => true
                             | _ => false
                             end) processed_qa) as Hlen.
    rewrite <- Hlen. rewrite Nat2Z.inj_add. f_equal. f_equal. f_equal.
    apply filter_ext. intros qa.
    destruct (accepts (threshold min_quality) qa) as [[|]| |]; reflexivity.
  - intros d rd Hr Hnone. rewrite filter_qa_by_quality_threshold.
    apply (filter_loop_one _ _ false). now apply (accepts_unlabelled _ _ rd).
Qed.

(** X20, on the merge of one reviewed record. *)
Lemma merged_pairs_pass_through_filter_witness :
  exists processed_qa stats filtered_qa rejected_qa,
    process_labelstudio_export [sample_item 1] sample_original
    = Returned (processed_qa, stats) /\
    filter_qa_by_quality processed_qa (lit "Good") = Returned (filtered_qa, rejected_qa) /\
    len filtered_qa + len rejected_qa = len processed_qa.
Proof.
  eexists. eexists.
  destruct (proj1 (merged_pairs_pass_through_filter [sample_item 1] sample_original _ _
                     (lit "Good") eq_refl)) as (f & r & Hf & Hlen).
  exists f, r. split; [reflexivity|]. split; assumption.
Defined.

(* ================================================================== *)
(** ** More on the quality filter *)
(* ================================================================== *)

(** The test of the loop depends on the threshold through one comparison
    only. *)
Lemma accepts_shape (qa : Json.t) :
  (exists e, forall min_level, accepts min_level qa = Raised e) \/
  (exists level ok,
     forall min_level, accepts min_level qa = Returned ((min_level <=? level) && ok)).
Proof.
  unfold accepts.
  destruct (get_attr qa (lit "review") (JObj [])) as [review| e |] eqn:E1; cbn [bind].
  - destruct (get_attr review (lit "quality") (JStr (lit "Fair"))) as [q| e |] eqn:E2;
      cbn [bind].
    + destruct (get_attr review (lit "accuracy") (JStr (lit "Partially Accurate")))
        as [a| e |] eqn:E3; cbn [bind].
      * destruct (levels_get q 0) as [level| e |] eqn:E4; cbn [bind].
        -- right. eexists. eexists. intros min_level. reflexivity.
        -- left. now exists e.
        -- destruct q; discriminate.
      * left. now exists e.
      * destruct review; discriminate.
    + left. now exists e.
    + destruct review; discriminate.
  - left. now exists e.
  - destruct qa; discriminate.
Qed.

Lemma filter_loop_returns (min_level : Z) (l : list Json.t) :
  forall filtered_qa rejected_qa f r,
    filter_loop min_level l (filtered_qa, rejected_qa) = Returned (f, r) ->
    (forall qa, In qa l -> exists ok, accepts min_level qa = Returned ok) /\
    f = filtered_qa ++ filter (fun qa => match accepts min_level qa with
                                         | Returned true => true
                                         | _ => false
                                         end) l /\
    r = rejected_qa ++ filter (fun qa => match accepts min_level qa with
                                         | Returned true => false
                                         | _ => true
                                         end) l.
Proof.
  induction l as [|qa l IH]; intros f0 r0 f r; cbn [filter_loop filter].
  - intros H. injection H as <- <-. rewrite !app_nil_r. repeat split. intros qa [].
  - destruct (accepts min_level qa) as [ok| |] eqn:E; cbn [bind]; try discriminate.
    intros H.
    destruct ok; apply IH in H; destruct H as (Hall & Hf & Hr);
      (split; [intros qa' [<- | Hin]; [eexists; eassumption | now apply Hall]|]);
      rewrite <- app_assoc in *; cbn [app] in *; now split.
Qed.

Lemma filter_partition_perm {A : Type} (f g : A -> bool) (l : list A) :
  (forall a, g a = negb (f a)) -> Permutation (filter f l ++ filter g l) l.
Proof.
  intros Hg. induction l as [|a l IH]; cbn [filter]; [constructor|].
  rewrite Hg. destruct (f a); cbn [negb app].
  - now constructor.
  - symmetry. etransitivity; [|apply Permutation_middle]. constructor. now symmetry.
Qed.

(** X21.  When the filter returns, the two lists split the input: each is
    the sub-list of the input pairs that passed, or failed, the test, in
    the order of the input, and together they hold every input pair once,
    unchanged. *)
Theorem filter_splits_the_input (processed_qa filtered_qa rejected_qa : list Json.t)
  (min_quality : str) :
  filter_qa_by_quality processed_qa min_quality = Returned (filtered_qa, rejected_qa) ->
  filtered_qa = filter (fun qa => match accepts (threshold min_quality) qa with
                                  | Returned true => true
                                  | _ => false
                                  end) processed_qa /\
  rejected_qa = filter (fun qa => match accepts (threshold min_quality) qa with
                                  | Returned true => false
                                  | _ => true
                                  end) processed_qa /\
  Permutation (filtered_qa ++ rejected_qa) processed_qa /\
  len filtered_qa + len rejected_qa = len processed_qa.
Proof.
  rewrite filter_qa_by_quality_threshold. intros H.
  apply filter_loop_returns in H. destruct H as (_ & Hf & Hr). cbn [app] in Hf, Hr.
  assert (Hp : Permutation (filtered_qa ++ rejected_qa) processed_qa).
  { rewrite Hf, Hr. apply filter_partition_perm. intros qa.
    destruct (accepts (threshold min_quality) qa) as [[|]| |]; reflexivity. }
  repeat split; try assumption.
  apply Permutation_length in Hp. rewrite length_app in Hp. unfold len. lia.
Qed.

(** X21, on one accepted and one rejected pair. *)
Lemma filter_splits_the_input_witness :
  exists filtered_qa rejected_qa,
    filter_qa_by_quality [reviewed "Good" "Accurate"; reviewed "Poor" "Accurate"] (lit "Good")
    = Returned (filtered_qa, rejected_qa) /\
    Permutation (filtered_qa ++ rejected_qa)
      [reviewed "Good" "Accurate"; reviewed "Poor" "Accurate"].
Proof.
  eexists. eexists. split; [reflexivity|].
  exact (proj1 (proj2 (proj2 (filter_splits_the_input
                                [reviewed "Good" "Accurate"; reviewed "Poor" "Accurate"]
                                _ _ (lit "Good") eq_refl)))).
Defined.

Lemma filter_loop_total (min_level : Z) (l : list Json.t) :
  (forall qa, In qa l -> exists ok, accepts min_level qa = Returned ok) ->
  exists f r, filter_loop min_level l ([], []) = Returned (f, r).
Proof. intros H. rewrite filter_loop_app by assumption. now eexists; eexists. Qed.

(** X22.  Lowering the threshold only moves pairs from the rejected to the
    accepted: when the filter returns at a threshold it returns at every
    lower one, with every accepted pair still accepted.  So the accepted
    lists for Excellent, Good, Fair and Poor are nested, and a threshold
    that is none of these four names counts as Good. *)
Theorem lower_threshold_accepts_more (processed_qa filtered_qa rejected_qa : list Json.t)
  (min_quality min_quality' : str) :
  threshold min_quality' <= threshold min_quality ->
  filter_qa_by_quality processed_qa min_quality = Returned (filtered_qa, rejected_qa) ->
  (exists filtered_qa' rejected_qa',
     filter_qa_by_quality processed_qa min_quality' = Returned (filtered_qa', rejected_qa') /\
     incl filtered_qa filtered_qa' /\ incl rejected_qa' rejected_qa) /\
  threshold (lit "Poor") < threshold (lit "Fair") < threshold (lit "Good") /\
  threshold (lit "Good") < threshold (lit "Excellent") /\
  (tier min_quality = None -> threshold min_quality = threshold (lit "Good")).
Proof.
  intros Hle H. split.
  - rewrite filter_qa_by_quality_threshold in H. apply filter_loop_returns in H.
    destruct H as (Hall & Hf & Hr). cbn [app] in Hf, Hr.
    assert (Hmono : forall qa, In qa processed_qa ->
              exists ok ok',
                accepts (threshold min_quality) qa = Returned ok /\
                accepts (threshold min_quality') qa = Returned ok' /\
                (ok = true -> ok' = true)).
    { intros qa Hin. destruct (Hall qa Hin) as [ok Hok].
      destruct (accepts_shape qa) as [[e He] | (level & b & Hs)].
      - rewrite He in Hok. discriminate.
      - exists ok, ((threshold min_quality' <=? level) && b).
        split; [assumption|]. split; [apply Hs|].
        rewrite Hs in Hok. injection Hok as <-.
        rewrite !andb_true_iff, !Z.leb_le. intros [H1 H2]. split; [lia | assumption]. }
    destruct (filter_loop_total (threshold min_quality') processed_qa) as (f' & r' & H').
    { intros qa Hin. destruct (Hmono qa Hin) as (_ & ok' & _ & Hok' & _). now exists ok'. }
    exists f', r'. rewrite filter_qa_by_quality_threshold. split; [exact H'|].
    apply filter_loop_returns in H'. destruct H' as (_ & Hf' & Hr'). cbn [app] in Hf', Hr'.
    split.
    + intros qa Hin. rewrite Hf in Hin. rewrite Hf'.
      apply filter_In in Hin. destruct Hin as [Hin Hacc]. apply filter_In. split; [assumption|].
      destruct (Hmono qa Hin) as (ok & ok' & Hok & Hok' & Himp).
      rewrite Hok in Hacc. rewrite Hok'. destruct ok; [|discriminate].
      now rewrite Himp.
    + intros qa Hin. rewrite Hr' in Hin. rewrite Hr.
      apply filter_In in Hin. destruct Hin as [Hin Hrej]. apply filter_In. split; [assumption|].
      destruct (Hmono qa Hin) as (ok & ok' & Hok & Hok' & Himp).
      rewrite Hok' in Hrej. rewrite Hok. destruct ok; [|reflexivity].
      rewrite Himp in Hrej by reflexivity. discriminate.
  - split; [split; reflexivity|]. split; [reflexivity|].
    intros Ht. unfold threshold at 1. now rewrite levels_lookup_tier, Ht.
Qed.

(** X22, going from Good down to Fair on a pair rated Fair. *)
Lemma lower_threshold_accepts_more_witness :
  exists filtered_qa' rejected_qa',
    filter_qa_by_quality [reviewed "Fair" "Accurate"] (lit "Good")
    = Returned ([], [reviewed "Fair" "Accurate"]) /\
    filter_qa_by_quality [reviewed "Fair" "Accurate"] (lit "Fair")
    = Returned (filtered_qa', rejected_qa') /\
    incl [] filtered_qa' /\ incl rejected_qa' [reviewed "Fair" "Accurate"].
Proof.
  destruct (proj1 (lower_threshold_accepts_more [reviewed "Fair" "Accurate"] _ _
                     (lit "Good") (lit "Fair") ltac:(discriminate) eq_refl))
    as (f' & r' & H' & Hf & Hr).
  exists f', r'. split; [reflexivity|]. split; [exact H'|]. split; assumption.
Defined.

(* ================================================================== *)
(** ** The export to the annotation tool *)
(* ================================================================== *)

Section ExportFacts.

Import ExportLabelStudio.

Variable format : Json.t -> str.
Variables doc_name document_path : str.

#[warnings="-notation-for-abbreviation"] Local Notation task_of := (task_of format doc_name document_path).
#[warnings="-notation-for-abbreviation"] Local Notation convert_from := (convert_from format doc_name document_path).

Lemma convert_from_acc (full_text : str) (qa_pairs : list Json.t) :
  forall i tasks,
    convert_from full_text i qa_pairs tasks =
    bind (convert_from full_text i qa_pairs []) (fun ts => Returned (tasks ++ ts)).
Proof.
  induction qa_pairs as [|qa rest IH]; intros i tasks; cbn [ExportLabelStudio.convert_from].
  - cbn [bind]. now rewrite app_nil_r.
  - destruct (task_of full_text i qa) as [task| |]; cbn [bind]; try reflexivity.
    rewrite IH. rewrite (IH (i + 1) ([] ++ [task])).
    destruct (convert_from full_text (i + 1) rest []); cbn [bind]; try reflexivity.
    now rewrite <- app_assoc.
Qed.

Lemma convert_from_cons (full_text : str) (i : Z) (qa : Json.t) (rest : list Json.t) :
  convert_from full_text i (qa :: rest) [] =
  bind (task_of full_text i qa) (fun task =>
  bind (convert_from full_text (i + 1) rest []) (fun ts => Returned (task :: ts))).
Proof.
  cbn [ExportLabelStudio.convert_from].
  destruct (task_of full_text i qa) as [task| |]; cbn [bind]; try reflexivity.
  now rewrite convert_from_acc.
Qed.

(** The tasks are the tasks of the pairs, one each, in order. *)
Lemma convert_from_tasks (full_text : str) (qa_pairs : list Json.t) :
  forall i tasks,
    convert_from full_text i qa_pairs [] = Returned tasks ->
    length tasks = length qa_pairs /\
    forall k task,
      nth_error tasks k = Some task ->
      exists qa,
        nth_error qa_pairs k = Some qa /\
        task_of full_text (i + Z.of_nat k) qa = Returned task.
Proof.
  induction qa_pairs as [|qa rest IH]; intros i tasks.
  - cbn [ExportLabelStudio.convert_from]. intros H. injection H as <-.
    split; [reflexivity|]. intros [|k] task Hk; discriminate.
  - rewrite convert_from_cons.
    destruct (task_of full_text i qa) as [t| |] eqn:Et; cbn [bind]; try discriminate.
    destruct (convert_from full_text (i + 1) rest []) as [ts| |] eqn:Er; cbn [bind];
      try discriminate.
    intros H. injection H as <-. destruct (IH _ _ Er) as [Hlen Hnth].
    split; [cbn [length]; now rewrite Hlen|].
    intros [|k] task Hk; cbn [nth_error] in Hk |- *.
    + injection Hk as <-. exists qa. split; [reflexivity|].
      now rewrite Z.add_0_r.
    + destruct (Hnth k task Hk) as (qa' & Hq & Ht). exists qa'. split; [assumption|].
      rewrite <- Ht. f_equal. lia.
Qed.

Lemma convert_from_raises (full_text : str) (before : list Json.t) :
  forall i tasks qa after e,
    convert_from full_text i before [] = Returned tasks ->
    task_of full_text (i + len before) qa = Raised e ->
    convert_from full_text i (before ++ qa :: after) [] = Raised e.
Proof.
  induction before as [|b before IH]; intros i tasks qa after e Hb Hq.
  - cbn [app]. rewrite convert_from_cons. change (len (@nil Json.t)) with 0 in Hq.
    rewrite Z.add_0_r in Hq. now rewrite Hq.
  - cbn [app]. rewrite convert_from_cons. rewrite convert_from_cons in Hb.
    destruct (task_of full_text i b) as [t| |]; cbn [bind] in *; try discriminate.
    destruct (convert_from full_text (i + 1) before []) as [ts| |] eqn:Er; cbn [bind] in Hb;
      try discriminate.
    rewrite (IH (i + 1) ts qa after e Er); [reflexivity|].
    rewrite <- Hq. f_equal. unfold len. cbn [length]. lia.
Qed.

(** The identifier of a task. *)
Lemma task_of_id (full_text : str) (i : Z) (qa task : Json.t) :
  task_of full_text i qa = Returned task ->
  get_attr task (lit "id") JNull = Returned (JInt (i + 1)).
Proof.
  unfold ExportLabelStudio.task_of.
  repeat match goal with
         | |- bind ?m _ = _ -> _ => destruct m; cbn [bind]; try discriminate
         end.
  intros H. injection H as <-. reflexivity.
Qed.

End ExportFacts.

(** What a task holds of the pair it was made from. *)
Lemma task_of_data (format : Json.t -> str) (doc_name document_path full_text : str)
  (i : Z) (qa task : Json.t) :
  ExportLabelStudio.task_of format doc_name document_path full_text i qa = Returned task ->
  exists data question answer,
    get_attr task (lit "data") JNull = Returned (JObj data) /\
    ExportLabelStudio.subscript qa (lit "question") = Returned question /\
    lookup data (lit "question") = Some question /\
    ExportLabelStudio.subscript qa (lit "answer") = Returned answer /\
    lookup data (lit "answer") = Some answer.
Proof.
  unfold ExportLabelStudio.task_of.
  destruct (get_attr qa (lit "reference") (JObj [])) as [ref| |]; cbn [bind];
    try discriminate.
  destruct (get_attr ref (lit "char_start") (JInt 0)) as [cs| |]; cbn [bind];
    try discriminate.
  destruct (get_attr ref (lit "char_end") (JInt (len full_text))) as [ce| |]; cbn [bind];
    try discriminate.
  destruct (ExportLabelStudio.slice_bound cs) as [a| |]; cbn [bind]; try discriminate.
  destruct (ExportLabelStudio.slice_bound ce) as [b| |]; cbn [bind]; try discriminate.
  cbv zeta.
  destruct (ExportLabelStudio.subscript qa (lit "question")) as [question| |]; cbn [bind];
    try discriminate.
  destruct (ExportLabelStudio.subscript qa (lit "answer")) as [answer| |]; cbn [bind];
    try discriminate.
  destruct (get_attr ref (lit "chunk_id") (JStr [])) as [ci| |]; cbn [bind];
    try discriminate.
  destruct (get_attr ref (lit "line_start") (JStr [])) as [ls| |]; cbn [bind];
    try discriminate.
  destruct (get_attr ref (lit "line_end") (JStr [])) as [le| |]; cbn [bind];
    try discriminate.
  destruct (get_attr ref (lit "chunk_preview") (JStr [])) as [cp| |]; cbn [bind];
    try discriminate.
  intros H. injection H as <-. eexists. exists question, answer.
  split; [reflexivity|]. repeat split.
Qed.

(** X23.  The export makes one task per pair, in order: task [k]
    (counting from 0) is the task of pair [k], it holds the question and
    the answer of that pair, and its id is [k + 1]; that id minus one,
    which is how the import reads it back, is the index of that pair. *)
Theorem export_ids_lead_back (format : Json.t -> str) (doc_name document_path : str)
  (qa_pairs : list Json.t) (full_text : str) (tasks : list Json.t) :
  ExportLabelStudio.convert_to_labelstudio_format format doc_name document_path
    qa_pairs full_text = Returned tasks ->
  length tasks = length qa_pairs /\
  forall k task,
    nth_error tasks k = Some task ->
    exists qa data question answer,
      nth_error qa_pairs k = Some qa /\
      ExportLabelStudio.task_of format doc_name document_path full_text (Z.of_nat k) qa
      = Returned task /\
      get_attr task (lit "id") JNull = Returned (JInt (Z.of_nat k + 1)) /\
      get_attr task (lit "data") JNull = Returned (JObj data) /\
      ExportLabelStudio.subscript qa (lit "question") = Returned question /\
      lookup data (lit "question") = Some question /\
      ExportLabelStudio.subscript qa (lit "answer") = Returned answer /\
      lookup data (lit "answer") = Some answer /\
      index qa_pairs (Z.of_nat k + 1 - 1) = Returned qa.
Proof.
  unfold ExportLabelStudio.convert_to_labelstudio_format. intros H.
  apply convert_from_tasks in H. destruct H as [Hlen Hnth]. split; [exact Hlen|].
  intros k task Hk. destruct (Hnth k task Hk) as (qa & Hq & Ht).
  rewrite Z.add_0_l in Ht.
  destruct (task_of_data _ _ _ _ _ _ _ Ht) as (data & question & answer & Hd & H1 & H2 & H3 & H4).
  exists qa, data, question, answer.
  split; [exact Hq|]. split; [exact Ht|]. split; [now apply task_of_id in Ht|].
  split; [exact Hd|]. split; [exact H1|]. split; [exact H2|]. split; [exact H3|].
  split; [exact H4|].
  apply index_nth; [lia|]. now replace (Z.to_nat (Z.of_nat k + 1 - 1)) with k by lia.
Qed.

(** X23, on the two sample pairs: the second task has id 2 and holds the
    second question. *)
Lemma export_ids_lead_back_witness :
  exists tasks task qa data question answer,
    ExportLabelStudio.convert_to_labelstudio_format (fun _ => lit "?") (lit "doc.txt")
      (lit "data/doc.txt") sample_original (lit "the document") = Returned tasks /\
    nth_error tasks 1 = Some task /\
    nth_error sample_original 1 = Some qa /\
    get_attr task (lit "id") JNull = Returned (JInt 2) /\
    get_attr task (lit "data") JNull = Returned (JObj data) /\
    ExportLabelStudio.subscript qa (lit "question") = Returned question /\
    lookup data (lit "question") = Some question /\
    ExportLabelStudio.subscript qa (lit "answer") = Returned answer /\
    lookup data (lit "answer") = Some answer /\
    question = JStr (lit "Q2").
Proof.
  eexists. eexists.
  destruct (proj2 (export_ids_lead_back (fun _ => lit "?") (lit "doc.txt")
                     (lit "data/doc.txt") sample_original (lit "the document") _ eq_refl)
              1%nat _ eq_refl)
    as (qa & data & question & answer & Hq & _ & Hid & Hd & H1 & H2 & H3 & H4 & _).
  exists qa, data, question, answer.
  split; [reflexivity|]. split; [reflexivity|]. split; [exact Hq|]. split; [exact Hid|].
  split; [exact Hd|]. split; [exact H1|]. split; [exact H2|]. split; [exact H3|].
  split; [exact H4|].
  cbv in Hq. injection Hq as <-. cbv in H1. now injection H1 as <-.
Defined.

Lemma add_reference_returned (chunk_data : Chunk.t) (qa qa' : Json.t) :
  add_reference chunk_data qa = Returned qa' ->
  referenced chunk_data qa qa' /\
  exists d a, qa = JObj d /\ lookup d (lit "answer") = Some (JStr a).
Proof.
  intros H.
  assert (Hwf : ~ malformed_pair qa).
  { intros Hbad. destruct (add_reference_malformed chunk_data qa Hbad) as [e He].
    congruence. }
  destruct (add_reference_wf chunk_data qa Hwf) as (qa'' & Hq & Hr).
  assert (qa'' = qa') by congruence. subst qa''. split; [exact Hr|].
  unfold malformed_pair in Hwf. destruct qa as [| b | z | s | l | d];
    try (exfalso; now apply Hwf).
  destruct (lookup d (lit "answer")) as [[| | | a | |]|] eqn:Ha;
    try (exfalso; now apply Hwf).
  now exists d, a.
Qed.

(** X24.  Chunking, referencing and exporting compose: for a pair that was
    given its reference from a chunk of the document, the "context" of its
    task is exactly the text of that chunk, read back from the document
    through [char_start] and [char_end]; the task keeps the question, the
    answer and the chunk id. *)
Theorem export_context_is_chunk_text (format : Json.t -> str) (doc_name document_path : str)
  (full_text : str) (chunk_size overlap : Z) (source_document : option str) (fuel : nat)
  (l : list Chunk.t) (c : Chunk.t) (d : dict) (question qa' : Json.t) (i : Z) :
  chunk_text_with_positions fuel full_text chunk_size overlap source_document = Returned l ->
  In c l ->
  lookup d (lit "question") = Some question ->
  add_reference c (JObj d) = Returned qa' ->
  exists task data answer,
    ExportLabelStudio.task_of format doc_name document_path full_text i qa' = Returned task /\
    get_attr task (lit "data") JNull = Returned (JObj data) /\
    lookup data (lit "context") = Some (JStr (Chunk.text c)) /\
    lookup data (lit "question") = Some question /\
    lookup d (lit "answer") = Some (JStr answer) /\
    lookup data (lit "answer") = Some (JStr answer) /\
    lookup data (lit "chunk_id") = Some (JInt (Chunk.id c)).
Proof.
  intros Hl Hin Hq Hadd. unfold chunk_text_with_positions in Hl.
  apply chunk_loop_Chain in Hl.
  destruct (chunk_end_formula _ _ _ _ _ _ _ c Hl Hin) as [_ Htext].
  destruct (add_reference_returned c _ _ Hadd) as [Href (d0 & a & Hd0 & Ha)].
  injection Hd0 as <-.
  destruct Href as (d1 & d' & ref & Hd1 & -> & Hr & Hkeep & Hid & Hcs & Hce & _).
  injection Hd1 as <-.
  unfold ExportLabelStudio.task_of, get_attr, get, ExportLabelStudio.subscript, getitem.
  rewrite Hr. cbn [bind]. rewrite Hcs, Hce, Hid. cbn [ExportLabelStudio.slice_bound bind].
  rewrite !Hkeep by discriminate. rewrite Hq, Ha. cbn [bind].
  eexists. eexists. exists a. split; [reflexivity|]. split; [reflexivity|].
  split; [|repeat split; assumption].
  cbn [lookup lit list_ascii_of_string str_eqb Ascii.eqb Bool.eqb andb].
  unfold ExportLabelStudio.slice_opt. now rewrite Htext.
Qed.

(** X24, on the second chunk of a short document. *)
Lemma export_context_is_chunk_text_witness :
  let full_text := lit "abcdefghij" in
  let d := [ (lit "question", JStr (lit "q")); (lit "answer", JStr (lit "def")) ] in
  exists l c qa' task data,
    chunk_text_with_positions 10 full_text 4 1 None = Returned l /\
    nth_error l 1 = Some c /\
    add_reference c (JObj d) = Returned qa' /\
    ExportLabelStudio.task_of (fun _ => lit "?") (lit "doc.txt") (lit "data/doc.txt")
      full_text 0 qa' = Returned task /\
    get_attr task (lit "data") JNull = Returned (JObj data) /\
    lookup data (lit "context") = Some (JStr (lit "defg")).
Proof.
  intros full_text d.
  destruct (export_context_is_chunk_text (fun _ => lit "?") (lit "doc.txt")
              (lit "data/doc.txt") full_text 4 1 None 10%nat _
              (fst (chunk_at full_text 4 1 None 3 1)) d (JStr (lit "q")) _ 0
              eq_refl (or_intror (or_introl eq_refl)) eq_refl eq_refl)
    as (task & data & answer & Ht & Hd & Hc & _).
  eexists. eexists. eexists. exists task, data.
  split; [reflexivity|]. split; [reflexivity|]. split; [reflexivity|].
  split; [exact Ht|]. split; [exact Hd | exact Hc].
Defined.

(** X25.  A pair without a reference is exported with the whole document
    as its context; a pair without a question (or, having one, without an
    answer) makes the export raise [KeyError], and then no task is
    returned, whatever the pairs before and after it. *)
Theorem export_defaults_and_errors (format : Json.t -> str) (doc_name document_path : str)
  (full_text : str) (d : dict) (i : Z) :
  lookup d (lit "reference") = None ->
  (forall question answer,
     lookup d (lit "question") = Some question ->
     lookup d (lit "answer") = Some answer ->
     exists task data,
       ExportLabelStudio.task_of format doc_name document_path full_text i (JObj d)
       = Returned task /\
       get_attr task (lit "data") JNull = Returned (JObj data) /\
       lookup data (lit "context") = Some (JStr full_text)) /\
  (lookup d (lit "question") = None \/ lookup d (lit "answer") = None ->
   forall before after tasks,
     ExportLabelStudio.convert_to_labelstudio_format format doc_name document_path
       before full_text = Returned tasks ->
     ExportLabelStudio.convert_to_labelstudio_format format doc_name document_path
       (before ++ JObj d :: after) full_text = Raised KeyError).
Proof.
  intros Href. split.
  - intros question answer Hq Ha.
    unfold ExportLabelStudio.task_of, get_attr, get, ExportLabelStudio.subscript, getitem.
    rewrite Href. cbn [lookup bind ExportLabelStudio.slice_bound]. rewrite Hq, Ha.
    cbn [bind]. eexists. eexists. split; [reflexivity|]. split; [reflexivity|].
    cbn [lookup lit list_ascii_of_string str_eqb Ascii.eqb Bool.eqb andb].
    unfold ExportLabelStudio.slice_opt. now rewrite slice_all.
  - intros Hmiss before after tasks Hb.
    unfold ExportLabelStudio.convert_to_labelstudio_format in *.
    apply (convert_from_raises format doc_name document_path full_text before 0 tasks);
      [exact Hb|].
    unfold ExportLabelStudio.task_of, get_attr, get, ExportLabelStudio.subscript, getitem.
    rewrite Href. cbn [lookup bind ExportLabelStudio.slice_bound].
    destruct (lookup d (lit "question")) as [q|]; cbn [bind].
    + destruct Hmiss as [Hmiss | Hmiss]; [discriminate|]. now rewrite Hmiss.
    + reflexivity.
Qed.

(** X25, on a pair that has an answer but no question, after a sound
    pair. *)
Lemma export_defaults_and_errors_witness :
  ExportLabelStudio.convert_to_labelstudio_format (fun _ => lit "?") (lit "doc.txt")
    (lit "data/doc.txt")
    ([sample_pair "Q1" "A1"] ++ JObj [(lit "answer", JStr (lit "A"))] :: [sample_pair "Q2" "A2"])
    (lit "the document")
  = Raised KeyError.
Proof.
  refine (proj2 (export_defaults_and_errors (fun _ => lit "?") (lit "doc.txt")
                   (lit "data/doc.txt") (lit "the document")
                   [(lit "answer", JStr (lit "A"))] 0 eq_refl)
            (or_introl eq_refl) [sample_pair "Q1" "A1"] [sample_pair "Q2" "A2"] _ _).
  reflexivity.
Defined.

(* ================================================================== *)
(** ** From the originals to the clean pairs *)
(* ================================================================== *)

Lemma index_In {A : Type} (l : list A) (i : Z) (a : A) :
  index l i = Returned a -> In a l.
Proof.
  unfold index. destruct (_ || _); [discriminate|].
  destruct (nth_error l _) as [x|] eqn:E; [|discriminate].
  intros H. injection H as <-. eapply nth_error_In; eassumption.
Qed.

Lemma process_item_derived (original_qa : list Json.t) (p p' : list Json.t) (s s' : Stats)
  (item : Item) :
  process_item original_qa (p, s) item = Returned (p', s') ->
  Forall (derived_from original_qa) p -> Forall (derived_from original_qa) p'.
Proof.
  unfold process_item. destruct (is_nil _).
  - intros H. now injection H as <- <-.
  - destruct (index _ (-1)) as [a| |]; cbn [bind]; try discriminate.
    destruct (extract _ _) as [rd| |]; cbn [bind]; try discriminate.
    destruct (_ <? len original_qa).
    + unfold merge. destruct (index original_qa _) as [qa| |] eqn:Ei; cbn [bind];
        try discriminate.
      destruct qa as [| b | z | x | l | d]; cbn [bind]; try discriminate.
      intros H. injection H as <- <-. intros HF. apply Forall_app. split; [assumption|].
      constructor; [|constructor]. exists d. eexists. split; [eapply index_In; eassumption|].
      split; [reflexivity|]. intros k H1 H2 H3.
      now rewrite !lookup_set_other
        by (intros Heq; first [ now apply H1; rewrite <- Heq
                              | now apply H2; rewrite <- Heq
                              | now apply H3; rewrite <- Heq ]).
    + intros H. now injection H as <- <-.
Qed.

Lemma process_items_derived (original_qa : list Json.t) (items : list Item) :
  forall p s p' s',
    process_items original_qa (p, s) items = Returned (p', s') ->
    Forall (derived_from original_qa) p -> Forall (derived_from original_qa) p'.
Proof.
  induction items as [|item items IH]; intros p s p' s'; cbn [process_items].
  - intros H. now injection H as <- <-.
  - destruct (process_item original_qa (p, s) item) as [[p1 s1]| |] eqn:E; cbn [bind];
      try discriminate.
    intros H HF. eapply IH; [exact H|]. eapply process_item_derived; eassumption.
Qed.

(** X26.  From the export to the training file: when every original pair
    has a question and an answer, building the clean pairs from the
    accepted ones never raises and gives one clean pair per accepted pair,
    in the order of the accepted pairs; the clean pair at a position holds
    exactly the question and the answer of the accepted pair at that
    position, which are those of one of the original pairs (the review keys
    are gone). *)
Theorem clean_pairs_come_from_originals (reviewed_data : list Item)
  (original_qa processed_qa filtered_qa rejected_qa : list Json.t) (stats : Stats)
  (min_quality : str) :
  (forall qa, In qa original_qa -> has_question_and_answer qa) ->
  process_labelstudio_export reviewed_data original_qa = Returned (processed_qa, stats) ->
  filter_qa_by_quality processed_qa min_quality = Returned (filtered_qa, rejected_qa) ->
  exists clean,
    ProcessMain.clean_qa filtered_qa = Returned clean /\
    length clean = length filtered_qa /\
    Forall2 (cleaned_from original_qa) filtered_qa clean.
Proof.
  intros Hqa Hp Hf. unfold process_labelstudio_export in Hp.
  apply process_items_derived in Hp; [|constructor].
  rewrite Forall_forall in Hp.
  rewrite filter_qa_by_quality_threshold in Hf. apply filter_loop_returns in Hf.
  destruct Hf as (_ & Hf & _). cbn [app] in Hf.
  assert (Hin : forall qa, In qa filtered_qa -> derived_from original_qa qa).
  { intros qa H. rewrite Hf in H. apply filter_In in H. apply Hp. tauto. }
  destruct (mapM_Forall2
              (fun qa =>
                 bind (ExportLabelStudio.subscript qa (lit "question")) (fun question =>
                 bind (ExportLabelStudio.subscript qa (lit "answer")) (fun answer =>
                 Returned (JObj [ (lit "question", question); (lit "answer", answer) ]))))
              (cleaned_from original_qa) filtered_qa) as (clean & Hc & HF).
  { intros qa H. destruct (Hin qa H) as (d & d' & Hd & -> & Hkeep).
    destruct (Hqa _ Hd) as (d0 & q & a & Hd0 & Hq & Ha). injection Hd0 as <-.
    eexists. split.
    - unfold ExportLabelStudio.subscript, getitem.
      rewrite !Hkeep by discriminate. rewrite Hq, Ha. reflexivity.
    - exists d', d, q, a. rewrite !Hkeep by discriminate. repeat split; assumption. }
  exists clean. split; [exact Hc|]. split; [|exact HF].
  symmetry. eapply Forall2_length; exact HF.
Qed.

(** X26, on the two sample pairs reviewed in the order second, first: the
    clean pairs come out in that order. *)
Lemma clean_pairs_come_from_originals_witness :
  exists processed_qa stats filtered_qa rejected_qa clean,
    process_labelstudio_export [sample_accepted_item 2; sample_accepted_item 1]
      sample_original = Returned (processed_qa, stats) /\
    filter_qa_by_quality processed_qa (lit "Good") = Returned (filtered_qa, rejected_qa) /\
    ProcessMain.clean_qa filtered_qa = Returned clean /\
    clean = [sample_pair "Q2" "A2"; sample_pair "Q1" "A1"] /\
    Forall2 (cleaned_from sample_original) filtered_qa clean.
Proof.
  eexists. eexists. eexists. eexists. eexists.
  split; [reflexivity|]. split; [reflexivity|]. split; [reflexivity|].
  split; [reflexivity|].
  assert (Hqa : forall qa, In qa sample_original -> has_question_and_answer qa).
  { intros qa [<- | [<- | []]]; eexists; eexists; eexists;
      (split; [reflexivity|]); split; reflexivity. }
  destruct (clean_pairs_come_from_originals
              [sample_accepted_item 2; sample_accepted_item 1] sample_original
              _ _ _ _ (lit "Good") Hqa eq_refl eq_refl) as (clean & Hc & _ & HF).
  cbv in Hc. injection Hc as <-. exact HF.
Defined.
